(** * MDT: parameter grids, noise simulation and the resumable sampler

    A shallow embedding of [mdt/simulations.py] and [mdt/model_sampling.py].

    Array elements are exact numbers: rationals ([Qc], which compute) for the
    grid generator, reals ([R]) where the code takes a square root.  Rounding
    of the machine formats is not modelled; the conversion to the element
    type of the result ([astype]) is kept as the function the caller passes.

    Python exceptions are values; a function that can raise returns a
    [result]. *)

From Stdlib Require Import ssreflect.
From Stdlib Require Import ZArith QArith Qcanon Reals Lra Lia String.
From stdpp Require Import base list numbers gmap strings.

Set Warnings "-rewrite-rw".
Set SsrOldRewriteGoalsOrder.
Open Scope general_if_scope.
Open Scope Z_scope.
Ltac done := stdpp.tactics.done.

(** ** Exceptions and fallible computations *)

Inductive result (E A : Type) : Type :=
  | Ok (a : A)
  | Raise (e : E).
Arguments Ok {E A} a.
Arguments Raise {E A} e.

#[global] Instance result_ret {E} : MRet (result E) := fun A a => Ok a.

#[global] Instance result_bind {E} : MBind (result E) := fun A B k m =>
  match m with
  | Ok a => k a
  | Raise e => Raise e
  end.

#[global] Instance result_fmap {E} : FMap (result E) := fun A B f m =>
  match m with
  | Ok a => Ok (f a)
  | Raise e => Raise e
  end.

Definition of_option {E A} (e : E) (o : option A) : result E A :=
  match o with
  | Some a => Ok a
  | None => Raise e
  end.

(** ** The NumPy and Python primitives the code calls *)

Module Np.

(** The exceptions NumPy and subscripting raise here. *)
Inductive exn : Type :=
  | IndexError
  | ValueError
  | TypeError.

(** A two-dimensional array: [ncols] is [shape[1]], the number of rows is
    the length of [rows].  The column count is kept apart so that an array
    without rows still has a shape. *)
Record ndarray2 (A : Type) : Type := Array2 {
  ncols : nat;
  rows : list (list A)
}.
Arguments Array2 {A} ncols rows.
Arguments ncols {A} _.
Arguments rows {A} _.

Definition nrows {A} (a : ndarray2 A) : nat := length (rows a).

(** [seq[i]] for a Python list or an array axis of length [len]: a
    negative [i] counts from the end, anything outside raises. *)
Definition py_index (len : nat) (i : Z) : option nat :=
  if decide (0 <= i < Z.of_nat len) then Some (Z.to_nat i)
  else if decide (- Z.of_nat len <= i < 0) then Some (Z.to_nat (i + Z.of_nat len))
  else None.

Definition getitem {A} (l : list A) (i : Z) : result exn A :=
  j ← of_option IndexError (py_index (length l) i);
  of_option IndexError (l !! j).

(** A count (number of repetitions, of points, of rows) must not be
    negative. *)
Definition count (z : Z) : result exn nat :=
  if decide (0 <= z) then Ok (Z.to_nat z) else Raise ValueError.

(** [np.tile(a, reps)] on a 2-d array and an integer: the columns are
    laid out [reps] times one after the other. *)
Definition tile_row {A} (reps : nat) (r : list A) : list A :=
  concat (replicate reps r).

Definition tile {A} (a : ndarray2 A) (reps : nat) : ndarray2 A :=
  Array2 (ncols a * reps) (tile_row reps <$> rows a).

(** [np.repeat(v, m)] on a vector: every element [m] times in a row. *)
Definition repeat {A} (v : list A) (m : nat) : list A :=
  flat_map (replicate m) v.

Definition Qc_of_Z (z : Z) : Qc := Q2Qc (inject_Z z).
Definition Qc_of_nat (n : nat) : Qc := Qc_of_Z (Z.of_nat n).

(** [astype(np.int64)] on one element: the fraction is cut off, toward
    zero.  The range of 64 bits is not modelled. *)
Definition int64 (x : Qc) : Qc := Qc_of_Z (Z.quot (Qnum x) (Z.pos (Qden x))).

(** [np.linspace(start, stop, num)], end point included: the step is
    [(stop - start) / (num - 1)], the last point is set to [stop], and a
    single point is [start]. *)
Definition linspace (start stop : Qc) (num : nat) : list Qc :=
  match num with
  | O => []
  | S O => [start]
  | S d =>
      (fun i : nat =>
         if decide (i = d) then stop
         else (start + Qc_of_nat i * ((stop - start) / Qc_of_nat d))%Qc)
      <$> seq 0 num
  end.

(** [np.arange(0, n)]. *)
Definition arange (n : nat) : list Z := Z.of_nat <$> seq 0 n.

(** [a[i] = v] (and [a[i, :] = v]): row [i] is overwritten; [v] must
    have the length of a row or a single element, which is then broadcast;
    the values are converted to the element type of [a]. *)
Definition set_row {A} (astype : A -> A) (a : ndarray2 A) (i : Z) (v : list A)
  : result exn (ndarray2 A) :=
  j ← of_option IndexError (py_index (nrows a) i);
  if decide (length v = ncols a) then
    Ok (Array2 (ncols a) (<[j := astype <$> v]> (rows a)))
  else
    match v with
    | [x] => Ok (Array2 (ncols a) (<[j := replicate (ncols a) (astype x)]> (rows a)))
    | _ => Raise ValueError
    end.

(** [np.transpose(a)]: row [k] of the result is column [k] of [a]. *)
Definition column {A} (a : ndarray2 A) (k : nat) : list A :=
  omap (fun r => r !! k) (rows a).

Definition transpose {A} (a : ndarray2 A) : ndarray2 A :=
  Array2 (nrows a) (column a <$> seq 0 (ncols a)).

(** [a[k, c]] by position. *)
Definition at2 {A} (a : ndarray2 A) (k c : nat) : option A :=
  rows a !! k ≫= fun r => r !! c.

(** [a.astype(t)]: every element converted. *)
Definition array_map {A} (f : A -> A) (a : ndarray2 A) : ndarray2 A :=
  Array2 (ncols a) ((fun r : list A => f <$> r) <$> rows a).

(** The pre-transposition cell of an array. *)
Definition cell {A} (a : ndarray2 A) (r k : nat) : option A :=
  rows a !! r ≫= fun row => row !! k.

End Np.

(** ** [mdt/simulations.py]: the parameter grid *)

Module Simulations.
Import Np.

(** [grid_size] is a number or a list of numbers. *)
Inductive grid_size_arg : Type :=
  | GridNumber (g : Z)
  | GridList (l : list Z).

(** The loop state of both generators: the array built so far and
    [repeat_mult]. *)
Definition loop_state (A : Type) : Type := (ndarray2 A * nat)%type.

(** One pass of the loop of [permutate_parameters] at
    [(linear_ind, params_ind)]. *)
Definition permutate_step (lower_bounds upper_bounds : list Qc) (grid_size : list Z)
    (np_dtype : Qc -> Qc) (st : loop_state Qc) (item : nat * Z) : result exn (loop_state Qc) :=
  let '(result, repeat_mult) := st in
  let '(linear_ind, params_ind) := item in
  g ← getitem grid_size (Z.of_nat linear_ind);
  reps ← count g;
  let result := tile result reps in
  lo ← getitem lower_bounds params_ind;
  hi ← getitem upper_bounds params_ind;
  result ← set_row np_dtype result params_ind (repeat (linspace lo hi reps) repeat_mult);
  Ok (result, (repeat_mult * reps)%nat).

(** A [for] loop whose body can raise. *)
Fixpoint for_each {S I} (body : S -> I -> result exn S) (items : list I) (st : S)
  : result exn S :=
  match items with
  | [] => Ok st
  | it :: items => st ← body st it; for_each body items st
  end.

Definition enumerate {A} (l : list A) : list (nat * A) := zip (seq 0 (length l)) l.

Definition permutate_parameters (var_params_ind : list Z)
    (default_values lower_bounds upper_bounds : list Qc)
    (grid_size : grid_size_arg) (np_dtype : Qc -> Qc) : result exn (ndarray2 Qc) :=
  let grid_size :=
    match grid_size with
    | GridNumber g => replicate (length var_params_ind) g
    | GridList l => l
    end in
  (* np.reshape(default_values, [len(lower_bounds), 1]).astype(np_dtype) *)
  if decide (length default_values = length lower_bounds) then
    let result := Array2 1 ((fun d => [np_dtype d]) <$> default_values) in
    st ← for_each (permutate_step lower_bounds upper_bounds grid_size np_dtype)
                   (enumerate var_params_ind) (result, 1%nat);
    Ok (transpose (fst st))
  else Raise ValueError.

(** One pass of the loop of [get_permuted_indices] at [ind]; subscripting
    a number is a [TypeError]. *)
Definition indices_step (grid_size : grid_size_arg) (st : loop_state Z) (ind : nat)
  : result exn (loop_state Z) :=
  let '(indices, repeat_mult) := st in
  match grid_size with
  | GridNumber _ => Raise TypeError
  | GridList l =>
      g ← getitem l (Z.of_nat ind);
      reps ← count g;
      let indices := tile indices reps in
      indices ← set_row (fun z => z) indices (Z.of_nat ind) (repeat (arange reps) repeat_mult);
      Ok (indices, (repeat_mult * reps)%nat)
  end.

Definition get_permuted_indices (nmr_var_params : Z) (grid_size : grid_size_arg)
  : result exn (ndarray2 Z) :=
  n ← count nmr_var_params;
  let indices := Array2 1 (replicate n [0]) in
  st ← for_each (indices_step grid_size) (seq 0 n) (indices, 1%nat);
  Ok (transpose (fst st)).

(** The loop state with every element of the array converted. *)
Definition state_map (f : Qc -> Qc) (st : loop_state Qc) : loop_state Qc :=
  (array_map f st.1, st.2).

End Simulations.

(** ** The tiling loop without its failure paths

    Both generators run the same pass: tile the array, overwrite one row
    with a vector repeated [repeat_mult] times, multiply [repeat_mult] by
    the length of the vector.  [place] is that pass. *)

Module Tiling.
Import Np.

Definition product (l : list nat) : nat := foldr Nat.mul 1%nat l.

Section place.
Context {A : Type} (astype : A -> A).

Definition place (st : ndarray2 A * nat) (item : nat * list A) : ndarray2 A * nat :=
  (Array2 (ncols st.1 * length item.2)
          (<[item.1 := astype <$> repeat item.2 st.2]>
             (tile_row (length item.2) <$> rows st.1)),
   (st.2 * length item.2)%nat).

Definition lengths (items : list (nat * list A)) : list nat :=
  (fun it => length it.2) <$> items.

Definition well_shaped (n c : nat) (st : ndarray2 A * nat) : Prop :=
  nrows st.1 = n /\ ncols st.1 = c /\ st.2 = c /\
  Forall (fun row => length row = c) (rows st.1).

End place.

End Tiling.

(** ** Valid inputs and grid coordinates *)

Module GridSpec.
Import Np Simulations Tiling.

(** A valid input: the three value lists have one entry per parameter,
    the varying indices are distinct positions in them, and there is one
    grid size, not negative, per varying index. *)
Definition valid_grid (var_params_ind : list Z)
    (default_values lower_bounds upper_bounds : list Qc) (grid_size : list Z) : Prop :=
  length default_values = length lower_bounds /\
  length upper_bounds = length lower_bounds /\
  Forall (fun p => 0 <= p < Z.of_nat (length lower_bounds)) var_params_ind /\
  NoDup var_params_ind /\
  length grid_size = length var_params_ind /\
  Forall (fun g => 0 <= g) grid_size.

Definition sizes (grid_size : list Z) : list nat := Z.to_nat <$> grid_size.

(** How many rows come before the [i]-th varying parameter moves on. *)
Definition stride (grid_size : list Z) (i : nat) : nat :=
  product (sizes (take i grid_size)).

(** The grid coordinate of row [k] along a varying parameter whose grid
    size is [g] and whose position among the varying ones is [i]. *)
Definition coordinate (grid_size : list Z) (i : nat) (g : Z) (k : nat) : nat :=
  ((k / stride grid_size i) mod Z.to_nat g)%nat.

Definition bound (l : list Qc) (p : Z) : Qc :=
  default (Qc_of_Z 0) (l !! Z.to_nat p).

Definition placed_values (lower_bounds upper_bounds : list Qc)
    (var_params_ind grid_size : list Z) : list (nat * list Qc) :=
  zip_with (fun p g => (Z.to_nat p,
                        linspace (bound lower_bounds p) (bound upper_bounds p) (Z.to_nat g)))
           var_params_ind grid_size.

Definition placed_indices (grid_size : list Z) : list (nat * list Z) :=
  imap (fun i g => (i, arange (Z.to_nat g))) grid_size.

(** The row and the vector one pass of [permutate_parameters] writes. *)
Definition grid_item (lower_bounds upper_bounds : list Qc) (grid_size : list Z)
    (n : nat) (item : nat * Z) (placed : nat * list Qc) : Prop :=
  exists g lo hi,
    grid_size !! item.1 = Some g /\ 0 <= g /\
    0 <= item.2 < Z.of_nat n /\
    lower_bounds !! Z.to_nat item.2 = Some lo /\
    upper_bounds !! Z.to_nat item.2 = Some hi /\
    placed = (Z.to_nat item.2, linspace lo hi (Z.to_nat g)).

(** The row and the vector one pass of [get_permuted_indices] writes. *)
Definition index_item (grid_size : list Z) (n : nat) (ind : nat) (placed : nat * list Z)
  : Prop :=
  exists g,
    grid_size !! ind = Some g /\ 0 <= g /\ (ind < n)%nat /\
    placed = (ind, arange (Z.to_nat g)).

Definition q (z : Z) : Qc := Qc_of_Z z.

(** Point [j] of [num] evenly spaced points from [start] to [stop]. *)
Definition linear_point (start stop : Qc) (num j : nat) : Qc :=
  (start + Qc_of_nat j * ((stop - start) / Qc_of_nat (num - 1)))%Qc.

(** The values column [c] of a matrix takes, row by row. *)
Definition realized {A} (M : ndarray2 A) (c : nat) : list A :=
  omap (fun row => row !! c) (rows M).

End GridSpec.

(** ** The protocol *)

Module Protocols.

(** Of the table of acquisition parameters the code here uses the column
    names and the rows of the unweighted measurements. *)
Record Protocol : Type := {
  column_names : list string;
  get_unweighted_indices : list nat
}.

(** [protocol.get_new_protocol_with_indices(indices)]: the rows at
    [indices] form the new protocol; taken at the unweighted rows, all of its
    rows are unweighted. *)
Definition get_new_protocol_with_indices (protocol : Protocol) (indices : list nat)
  : Protocol :=
  {| column_names := column_names protocol;
     get_unweighted_indices := seq 0 (length indices) |}.

End Protocols.

(** ** [mdt/simulations.py]: noise *)

Module Noise.
Import Np Protocols.

#[local] Open Scope R_scope.

(** [np.random.normal(size=shape)]: as many successive draws of the
    generator as the shape has elements.  An array of any shape is the list
    of its elements here, since every operation below is elementwise. *)
Definition normal (draws : nat -> R) (size : nat) : list R := draws <$> seq 0 size.

(** [np.sqrt(a, out)]: the second positional argument is the output array;
    the square roots of [a] are written over its elements and it is
    returned. *)
Definition sqrt_out (a out : list R) : list R := zip_with (fun v _ => sqrt v) a out.

Definition make_rician_distributed (astype : R -> R) (x_draws y_draws : nat -> R)
    (signals : list R) (noise_level : R) : list R :=
  let x := zip_with Rplus (Rmult noise_level <$> normal x_draws (length signals)) signals in
  let y := Rmult noise_level <$> normal y_draws (length signals) in
  astype <$> sqrt_out ((fun v => v ^ 2) <$> x) ((fun v => v ^ 2) <$> y).

(** [row[indices]]. *)
Definition take_columns (indices : list nat) (row : list R) : result exn (list R) :=
  mapM (fun i => of_option IndexError (row !! i)) indices.

Definition get_unweighted_volumes (signals : list (list R)) (protocol : Protocol)
  : result exn (list (list R) * Protocol) :=
  let unweighted_indices := get_unweighted_indices protocol in
  (* signals[:, unweighted_indices] *)
  unweighted_signals ← mapM (take_columns unweighted_indices) signals;
  let unweighted_protocol := get_new_protocol_with_indices protocol unweighted_indices in
  Ok (unweighted_signals, unweighted_protocol).

(** [np.sum] and [np.mean] of a vector. *)
Definition np_sum (l : list R) : R := foldr Rplus 0 l.
Definition np_mean (l : list R) : R := np_sum l / INR (length l).

(** [signals - s0] with [signals] of shape [(n, m)] and [s0] of shape
    [(k, 1)], as numpy broadcasts the two: with one estimate per problem the
    estimate is taken off every volume of its problem; a single estimate is
    taken off every volume of every problem; a single problem is repeated
    for every estimate; other shapes do not go together. *)
Definition subtract (signals : list (list R)) (s0 : list R) : result exn (list (list R)) :=
  if (length s0 =? length signals)%nat
  then Ok (zip_with (fun row e => (fun v => v - e) <$> row) signals s0)
  else
    match s0, signals return result exn (list (list R)) with
    | [e], _ => Ok ((fun row : list R => (fun v => v - e) <$> row) <$> signals)
    | _, [row] => Ok ((fun e : R => (fun v => v - e) <$> (row : list R)) <$> s0)
    | _, _ => Raise ValueError
    end.

(** The protocol argument is a protocol or the name of a protocol file. *)
Inductive protocol_arg : Type :=
  | ProtocolFile (file_name : string)
  | ProtocolObject (protocol : Protocol).

Section estimate.
(** The collaborators: the protocol loader, and the S0 fit of the Powell
    optimizer with the noise std fixed at 1, which returns the vector of its
    estimates. *)
Context (load_protocol : string -> Protocol).
Context (minimize_s0 : list (list R) -> Protocol -> list R).

Definition estimate_noise_std (simulated_noisy_signals : list (list R))
    (protocol : protocol_arg) : result exn R :=
  let protocol :=
    match protocol with
    | ProtocolFile file_name => load_protocol file_name
    | ProtocolObject protocol => protocol
    end in
  '(unweighted_signals, unweighted_protocol) ←
    get_unweighted_volumes simulated_noisy_signals protocol;
  let s0_estimate := minimize_s0 unweighted_signals unweighted_protocol in
  baseline_images ← subtract unweighted_signals s0_estimate;
  let sum_of_squares := (fun row => np_sum ((fun v => v ^ 2) <$> row)) <$> baseline_images in
  (* baseline_images.shape[0] is the number of problems *)
  let mean_squares := (fun s => s / INR (length baseline_images)) <$> sum_of_squares in
  let sigmas := (fun m => sqrt (m / 2)) <$> mean_squares in
  Ok (np_mean sigmas).

(** The estimator in the words of the specification: the squared residuals
    of a problem are averaged over the measurement axis. *)
Definition estimate_noise_std_spec (simulated_noisy_signals : list (list R))
    (protocol : protocol_arg) : result exn R :=
  let protocol :=
    match protocol with
    | ProtocolFile file_name => load_protocol file_name
    | ProtocolObject protocol => protocol
    end in
  '(unweighted_signals, unweighted_protocol) ←
    get_unweighted_volumes simulated_noisy_signals protocol;
  let s0_estimate := minimize_s0 unweighted_signals unweighted_protocol in
  residuals ← subtract unweighted_signals s0_estimate;
  let sigmas := (fun row => sqrt (np_mean ((fun v => v ^ 2) <$> row) / 2)) <$> residuals in
  Ok (np_mean sigmas).

End estimate.

(** One problem with the two unweighted volumes 1 and 3. *)
Definition two_volumes : list (list R) := [[1; 3]].
Definition both_unweighted : protocol_arg :=
  ProtocolObject {| column_names := ["b"%string];
                    get_unweighted_indices := [0%nat; 1%nat] |}.

End Noise.

(** ** [mdt/model_sampling.py]: the world the sampler runs in *)

Module Sampling.
Import Protocols.

#[local] Open Scope string_scope.

(** A path is the list of its components; [os.path.join] appends. *)
Abbreviation path := (list string).

Inductive node : Type :=
  | Dir
  | File (data : list Qc).

Abbreviation filesystem := (gmap path node).

Inductive exn : Type :=
  | ValueError (msg : string)
  | InsufficientProtocolError (msg : string) (problems : list string)
  | RuntimeError (msg : string) (folder : path)
  | FileExistsError (p : path)
  | NotADirectoryError (p : path)
  | FileNotFoundError (p : path)
  | ComponentNotFound (name : string)
  | ProcessingError (msg : string).

(** What the code does to the outside, in the order it does it.  Logging
    is observed only here: log files are no part of [filesystem]. *)
Inductive event : Type :=
  | GetModel (name : string)
  | SetDoublePrecision (model : string) (double_precision : bool)
  | ConstructSampler (model : string)
  | LoggingContext (p : path)
  | LogInfo (msg : string)
  | SetProblemData (model : string)
  | Rmtree (p : path)
  | Makedirs (p : path)
  | LoadSamples (p : path)
  | ReadVolumeMaps (folder : path)
  | NibLoad (file : path)
  | SetInitialParameters (model : string) (names : list string)
  | StrategyRun (output_path : path) (recalculate : bool).

Record world : Type := World {
  fs : filesystem;
  trace : list event
}.

(** A method: it reads and changes the world and returns or raises; what
    it did before raising stays done. *)
Definition io (A : Type) : Type := world -> result exn A * world.

#[global] Instance io_ret : MRet io := fun A a w => (Ok a, w).

#[global] Instance io_bind : MBind io := fun A B k m w =>
  match m w with
  | (Ok a, w) => k a w
  | (Raise e, w) => (Raise e, w)
  end.

Definition raise {A} (e : exn) : io A := fun w => (Raise e, w).

Definition emit (ev : event) : io unit :=
  fun w => (Ok tt, World (fs w) (trace w ++ [ev])).

Definition get_fs : io filesystem := fun w => (Ok (fs w), w).

Definition put_fs (fs' : filesystem) : io unit :=
  fun w => (Ok tt, World fs' (trace w)).

Definition lift {A} (r : result exn A) : io A := fun w => (r, w).

(** *** [os] and [shutil] *)

Definition exists_ (fs : filesystem) (p : path) : bool :=
  match fs !! p with Some _ => true | None => false end.

Definition isdir (fs : filesystem) (p : path) : bool :=
  match fs !! p with Some Dir => true | _ => false end.

(** [shutil.rmtree(p)]: the directory and everything below it goes. *)
Definition rmtree (fs : filesystem) (p : path) : result exn filesystem :=
  match fs !! p with
  | Some Dir => Ok (filter (fun kv => ~ p `prefix_of` kv.1) fs)
  | Some (File _) => Raise (NotADirectoryError p)
  | None => Raise (FileNotFoundError p)
  end.

(** The directories leading to [p], [p] included, outermost first. *)
Definition ancestors (p : path) : list path :=
  (fun n => take n p) <$> seq 1 (length p).

(** [os.makedirs(p)]: [p] must not exist, no component on the way may be a
    file; every missing directory on the way is made.  With a file on the
    way the error names the directory that could not be made, the one just
    below the file. *)
Definition makedirs (fs : filesystem) (p : path) : result exn filesystem :=
  if exists_ fs p then Raise (FileExistsError p)
  else
    match list_find (fun a => exists_ fs a && negb (isdir fs a)) (ancestors p) with
    | Some (_, a) => Raise (NotADirectoryError (take (S (length a)) p))
    | None => Ok (foldl (fun fs a => if exists_ fs a then fs else <[a := Dir]> fs)
                        fs (ancestors p))
    end.

(** *** The objects *)

Record ProblemData : Type := {
  protocol : Protocol;
  mask : list bool
}.

(** [isinstance(model, DMRICascadeModelInterface)]. *)
Inductive model_kind : Type :=
  | Composite
  | Cascade.

(** A start value: one number for all voxels or one per voxel. *)
Inductive init_value : Type :=
  | Scalar (x : Qc)
  | PerVoxel (v : list Qc).

(** A model, with the methods of [DMRIOptimizable]. *)
Record Model : Type := {
  name : string;
  kind : model_kind;
  is_protocol_sufficient : Protocol -> bool;
  get_protocol_problems : Protocol -> list string;
  problem_data : option ProblemData;
  initial_parameters : gmap string init_value
}.

(** The property [double_precision] of [DMRIOptimizable]: the getter
    returns [0] and the setter has no body, so that the assignment
    [model.double_precision = ...] leaves the model as it is.  What the model
    classes do with the flag is not in [src/]; the assignment is observed as
    the event [SetDoublePrecision]. *)
Definition double_precision (m : Model) : Z := 0.

Definition set_double_precision (m : Model) (b : bool) : Model := m.

#[global] Arguments set_double_precision m b /.

Definition set_problem_data (m : Model) (d : ProblemData) : Model :=
  {| name := name m; kind := kind m;
     is_protocol_sufficient := is_protocol_sufficient m;
     get_protocol_problems := get_protocol_problems m;
     problem_data := Some d;
     initial_parameters := initial_parameters m |}.

Definition set_initial_parameters (m : Model) (maps : gmap string init_value) : Model :=
  {| name := name m; kind := kind m;
     is_protocol_sufficient := is_protocol_sufficient m;
     get_protocol_problems := get_protocol_problems m;
     problem_data := problem_data m;
     initial_parameters := maps |}.

(** A sampler is known by the name of its configuration. *)
Inductive Sampler : Type := SamplerFor (configuration : string).

(** What a run returns: the sampled maps. *)
Abbreviation Samples := (gmap string (list Qc)).

(** [initialize_using]: [None], a folder, a dict, or anything else; a value
    of the dict is a file name, a scalar or a volume. *)
Inductive dict_value : Type :=
  | FileName (file : path)
  | Number (x : Qc)
  | Volume (v : list Qc).

Inductive initialize_using_arg : Type :=
  | UseNone
  | UseFolder (folder : path)
  | UseDict (d : gmap string dict_value)
  | UseOther.

(** [tmp_results_dir]: a path, [True] or [None]. *)
Inductive tmp_results_dir_arg : Type :=
  | TmpPath (p : path)
  | TmpTrue
  | TmpNone.

(** [cl_device_ind]: [None], one index or a list of indices. *)
Inductive cl_device_ind_arg : Type :=
  | NoDeviceIndex
  | DeviceIndex (i : Z)
  | DeviceIndices (l : list Z).

(** The processing strategy: [run(model, problem_data, output_path,
    recalculate, worker_generator)], the worker generator being fixed by the
    sampler and [store_samples].  It works on the file system. *)
Definition ProcessingStrategy : Type :=
  Model -> ProblemData -> path -> bool -> Sampler -> bool ->
  filesystem -> result exn Samples * filesystem.

(** The code of the repository this file calls and [src/] does not hold. *)
Record Collaborators : Type := {
  (** [components_loader.get_model] *)
  get_model : string -> option Model;
  (** [utils.get_temporary_results_dir] *)
  get_temporary_results_dir : tmp_results_dir_arg -> option path;
  (** [utils.MetaSamplerBuilder().construct] *)
  construct_sampler : string -> Sampler;
  (** [utils.model_output_exists(model, folder, append_model_name_to_path=False)]:
      are all the volume maps the model writes in [folder]? *)
  model_output_exists : filesystem -> Model -> path -> bool;
  (** [utils.load_samples] *)
  load_samples : filesystem -> path -> Samples;
  (** [IO.Nifti.read_volume_maps] *)
  read_volume_maps : filesystem -> path -> gmap string (list Qc);
  (** [nib.load(file).get_data()] *)
  nib_load : filesystem -> path -> option (list Qc);
  (** [utils.create_roi] on one volume *)
  create_roi : list Qc -> list bool -> list Qc
}.

(** Modelled from the spec: [utils.create_roi] on a dict of volumes, which
    [src/] does not hold, projects every map through the mask and keeps its
    name. *)
Definition create_roi_maps (C : Collaborators) (maps : gmap string (list Qc))
    (mask : list bool) : gmap string init_value :=
  (fun v => PerVoxel (create_roi C v mask)) <$> maps.

(** [not maps] for a dict or [None]. *)
Definition is_falsy {A} (maps : option (gmap string A)) : bool :=
  match maps with
  | None => true
  | Some m => match map_to_list m with [] => true | _ => false end
  end.

End Sampling.

(** ** [SampleSingleModel] *)

Module SampleSingleModel.
Import Protocols Sampling.

#[local] Open Scope string_scope.

Record self : Type := {
  recalculate : bool;
  _model : Model;
  _problem_data : ProblemData;
  _output_folder : path;
  _output_path : path;
  _sampler : Sampler;
  _processing_strategy : ProcessingStrategy;
  _initialize : bool;
  _initialize_using : initialize_using_arg;
  _store_samples : bool
}.

Definition insufficient_message : string :=
  "The provided protocol is insufficient for this model. The reported errors where: {}".

Definition __init__ (model : Model) (problem_data : ProblemData) (output_folder : path)
    (sampler : Sampler) (processing_strategy : ProcessingStrategy)
    (recalculate initialize : bool) (initialize_using : initialize_using_arg)
    (store_samples : bool) : result exn self :=
  let self := {|
    recalculate := recalculate;
    _model := model;
    _problem_data := problem_data;
    _output_folder := output_folder;
    _output_path := output_folder ++ [name model; "samples"];
    _sampler := sampler;
    _processing_strategy := processing_strategy;
    _initialize := initialize;
    _initialize_using := initialize_using;
    _store_samples := store_samples |} in
  if negb (is_protocol_sufficient model (protocol problem_data)) then
    Raise (InsufficientProtocolError insufficient_message
             (get_protocol_problems model (protocol problem_data)))
  else Ok self.

(** The message of the [RuntimeError]; the folder in it stands between
    double quotes. *)
Definition double_quote : string := String (Ascii.ascii_of_nat 34) EmptyString.

Definition no_maps_message : string :=
  "No initialization maps found in the folder " ++ double_quote ++ "{}" ++ double_quote.

(** The folder of the model, where the optimization results are looked
    for, and the error raised when no start values are found. *)
Definition default_folder (self : self) : path :=
  _output_folder self ++ [name (_model self)].

Definition no_maps (self : self) : exn :=
  RuntimeError no_maps_message (default_folder self).

Section methods.
Context (C : Collaborators).

(** One value of the [initialize_using] dict. *)
Definition resolve (self : self) (item : string * dict_value) : io (string * init_value) :=
  let '(key, value) := item in
  match value with
  | FileName file =>
      _ ← emit (NibLoad file);
      fs ← get_fs;
      v ← lift (of_option (FileNotFoundError file) (nib_load C fs file));
      mret (key, PerVoxel (create_roi C v (mask (_problem_data self))))
  | Number x => mret (key, Scalar x)
  | Volume v => mret (key, PerVoxel (create_roi C v (mask (_problem_data self))))
  end.

Definition read_maps (self : self) (folder : path) : io (gmap string init_value) :=
  _ ← emit (LogInfo "Initializing sampler using maps in {}");
  _ ← emit (ReadVolumeMaps folder);
  fs ← get_fs;
  mret (create_roi_maps C (read_volume_maps C fs folder) (mask (_problem_data self))).

Definition _get_initialization_params (self : self) : io (gmap string init_value) :=
  if _initialize self then
    maps ← match _initialize_using self with
           | UseNone =>
               maps ← read_maps self (_output_folder self ++ [name (_model self)]);
               mret (Some maps)
           | UseFolder folder =>
               maps ← read_maps self folder;
               mret (Some maps)
           | UseDict d =>
               _ ← emit (LogInfo "Initializing sampler using given maps.");
               items ← mapM (resolve self) (map_to_list d);
               mret (Some (list_to_map items))
           | UseOther => mret None
           end;
    if is_falsy maps then
      raise (RuntimeError no_maps_message (_output_folder self ++ [name (_model self)]))
    else mret (default ∅ maps)
  else mret ∅.

(** [run] once it has decided to compute, first step: the output directory is made if it
    is not there. *)
Definition ensure_output_path (self : self) : io unit :=
  fs ← get_fs;
  if negb (isdir fs (_output_path self)) then
    _ ← emit (Makedirs (_output_path self));
    fs' ← lift (makedirs fs (_output_path self));
    put_fs fs'
  else mret tt.

(** [run] once it has decided to compute, second step: resolve the start values and run
    the strategy, with logging around. *)
Definition sample (self : self) (model : Model) : io Samples :=
  _ ← emit (LogInfo "Sampling {} model");
  maps ← _get_initialization_params self;
  _ ← emit (SetInitialParameters (name model) (map_to_list maps).*1);
  let model := set_initial_parameters model maps in
  _ ← emit (StrategyRun (_output_path self) (recalculate self));
  fs ← get_fs;
  let '(r, fs') := _processing_strategy self model (_problem_data self) (_output_path self)
                     (recalculate self) (_sampler self) (_store_samples self) fs in
  _ ← put_fs fs';
  samples ← lift r;
  _ ← emit (LogInfo "Sampled {0} model with runtime {1} (h:m:s).");
  mret samples.

Definition process (self : self) (model : Model) : io Samples :=
  _ ← ensure_output_path self;
  sample self model.

(** [self._model] after [set_problem_data(self._problem_data)]. *)
Definition bound_model (self : self) : Model :=
  set_problem_data (_model self) (_problem_data self).

(** The world once [run] has entered the logging context and bound the
    problem data. *)
Definition entered (self : self) (w : world) : world :=
  World (fs w) (trace w ++ [LoggingContext (_output_folder self);
                            SetProblemData (name (_model self))]).

Definition run (self : self) : io Samples :=
  _ ← emit (LoggingContext (_output_folder self));
  _ ← emit (SetProblemData (name (_model self)));
  let model := bound_model self in
  fs ← get_fs;
  if recalculate self then
    _ ← (if exists_ fs (_output_path self) then
           _ ← emit (Rmtree (_output_path self));
           fs' ← lift (rmtree fs (_output_path self));
           put_fs fs'
         else mret tt);
    process self model
  else
    if model_output_exists C fs model (_output_path self ++ ["volume_maps"]) then
      _ ← emit (LogInfo "Not recalculating {} model");
      _ ← emit (LoadSamples (_output_path self));
      mret (load_samples C fs (_output_path self))
    else process self model.

End methods.

End SampleSingleModel.

(** ** [ModelSampling] *)

Module ModelSampling.
Import Protocols Sampling.

#[local] Open Scope string_scope.

Inductive model_arg : Type :=
  | ModelName (name : string)
  | ModelObject (model : Model).

Record self : Type := {
  _model : Model;
  _problem_data : ProblemData;
  _output_folder : path;
  _sampler : Sampler;
  _recalculate : bool;
  _cl_device_indices : option (list Z);
  _initialize : bool;
  _initialize_using : initialize_using_arg;
  _store_samples : bool;
  _tmp_results_dir : option path
}.

Definition cascade_message : string :=
  "The function 'sample_model()' does not accept cascade models.".

Definition insufficient_message : string :=
  "The given protocol is insufficient for this model. The reported errors where: {}".

Section methods.
Context (C : Collaborators).

Definition __init__ (model : model_arg) (problem_data : ProblemData) (output_folder : path)
    (sampler : option Sampler) (recalculate : bool) (cl_device_ind : cl_device_ind_arg)
    (double_precision initialize : bool) (initialize_using : initialize_using_arg)
    (store_samples : bool) (tmp_results_dir : tmp_results_dir_arg) : io self :=
  model ← match model with
          | ModelName name =>
              _ ← emit (GetModel name);
              lift (of_option (ComponentNotFound name) (get_model C name))
          | ModelObject model => mret model
          end;
  match kind model with
  | Cascade => raise (ValueError cascade_message)
  | Composite =>
      _ ← emit (SetDoublePrecision (name model) double_precision);
      let model := set_double_precision model double_precision in
      sampler ← match sampler with
                | None =>
                    _ ← emit (ConstructSampler (name model));
                    mret (construct_sampler C (name model))
                | Some sampler => mret sampler
                end;
      let self := {|
        _model := model;
        _problem_data := problem_data;
        _output_folder := output_folder;
        _sampler := sampler;
        _recalculate := recalculate;
        _cl_device_indices :=
          match cl_device_ind with
          | NoDeviceIndex => None
          | DeviceIndex i => Some [i]
          | DeviceIndices l => Some l
          end;
        _initialize := initialize;
        _initialize_using := initialize_using;
        _store_samples := store_samples;
        _tmp_results_dir := get_temporary_results_dir C tmp_results_dir |} in
      if negb (is_protocol_sufficient model (protocol problem_data)) then
        raise (InsufficientProtocolError insufficient_message
                 (get_protocol_problems model (protocol problem_data)))
      else mret self
  end.

End methods.

End ModelSampling.

(** ** A small scenario: the Tensor model and its cascade *)

Module Scenario.
Import Np Protocols Sampling.

#[local] Open Scope string_scope.

(** The Tensor model needs the b-values. *)
Definition needs_b (protocol : Protocol) : bool :=
  bool_decide ("b" ∈ column_names protocol).

Definition problems_b (protocol : Protocol) : list string :=
  if needs_b protocol then [] else ["Missing column b"].

Definition tensor : Model :=
  {| name := "Tensor"; kind := Composite;
     is_protocol_sufficient := needs_b; get_protocol_problems := problems_b;
     problem_data := None; initial_parameters := ∅ |}.

(** [Tensor (Cascade)] of [cascade_models/Tensor.py]. *)
Definition tensor_cascade : Model :=
  {| name := "Tensor (Cascade)"; kind := Cascade;
     is_protocol_sufficient := needs_b; get_protocol_problems := problems_b;
     problem_data := None; initial_parameters := ∅ |}.

Definition with_b : ProblemData :=
  {| protocol := {| column_names := ["g"; "b"]; get_unweighted_indices := [0%nat] |};
     mask := [true; true] |}.

Definition without_b : ProblemData :=
  {| protocol := {| column_names := ["g"]; get_unweighted_indices := [] |};
     mask := [true; true] |}.

(** A strategy that writes one volume map and returns it. *)
Definition one_map_strategy : ProcessingStrategy :=
  fun model problem_data output_path recalculate sampler store_samples fs =>
    (Ok {[ "Tensor.d" := [Qc_of_Z 1; Qc_of_Z 2] ]},
     <[(output_path ++ ["volume_maps"; "Tensor.d"])%list := File [Qc_of_Z 1; Qc_of_Z 2]]>
       (<[(output_path ++ ["volume_maps"])%list := Dir]> fs)).

Definition collaborators : Collaborators :=
  {| get_model := fun model_name =>
       if String.eqb model_name "Tensor" then Some tensor
       else if String.eqb model_name "Tensor (Cascade)" then Some tensor_cascade
       else None;
     get_temporary_results_dir := fun arg =>
       match arg with
       | TmpPath p => Some p
       | TmpTrue => Some ["tmp"]
       | TmpNone => None
       end;
     construct_sampler := fun model_name => SamplerFor model_name;
     model_output_exists := fun fs model folder => exists_ fs (folder ++ ["Tensor.d"])%list;
     load_samples := fun fs p =>
       match fs !! (p ++ ["volume_maps"; "Tensor.d"])%list with
       | Some (File data) => {[ "Tensor.d" := data ]}
       | _ => ∅
       end;
     read_volume_maps := fun fs folder =>
       match fs !! (folder ++ ["Tensor.d"])%list with
       | Some (File data) => {[ "Tensor.d" := data ]}
       | _ => ∅
       end;
     nib_load := fun fs file =>
       match fs !! file with
       | Some (File data) => Some data
       | _ => None
       end;
     create_roi := fun v mask => (filter (fun xb => xb.2 = true) (zip v mask)).*1 |}.

(** An empty output folder. *)
Definition empty_world : world := World {[ ["out"] := Dir ]} [].

(** A sampler of the Tensor model into [out]. *)
Definition tensor_sampler (recalculate initialize : bool)
    (initialize_using : initialize_using_arg) : SampleSingleModel.self :=
  {| SampleSingleModel.recalculate := recalculate;
     SampleSingleModel._model := tensor;
     SampleSingleModel._problem_data := with_b;
     SampleSingleModel._output_folder := ["out"];
     SampleSingleModel._output_path := ["out"; "Tensor"; "samples"];
     SampleSingleModel._sampler := SamplerFor "Tensor";
     SampleSingleModel._processing_strategy := one_map_strategy;
     SampleSingleModel._initialize := initialize;
     SampleSingleModel._initialize_using := initialize_using;
     SampleSingleModel._store_samples := true |}.

End Scenario.

(** ** More of [mdt/simulations.py]: indices counted from the end *)

Module GridIndexing.
Import Np Simulations.

(** The position a Python index stands for on an axis of length [n]. *)
Definition normalize (n : nat) (p : Z) : Z :=
  if decide (p < 0) then p + Z.of_nat n else p.

(** Row [k] of the index matrix for the grid sizes [grid_size]: the grid
    coordinates of [k], the first parameter moving fastest. *)
Definition digits (grid_size : list Z) (k : nat) : list Z :=
  imap (fun i g => Z.of_nat (GridSpec.coordinate grid_size i g k)) grid_size.

End GridIndexing.

(** ** More of [mdt/simulations.py]: rows a problem has volumes at *)

Module NoiseSpec.

(** Every index of [indices] is a position of [row]. *)
Definition in_range (indices : list nat) (row : list R) : Prop :=
  Forall (fun i => (i < length row)%nat) indices.

#[global] Instance in_range_dec indices row : Decision (in_range indices row).
Proof. unfold in_range. apply _. Defined.

End NoiseSpec.

(** ** More of [mdt/model_sampling.py]: what stays as it was *)

Module SamplingSpec.
Import Protocols Sampling.

(** The events the construction of [ModelSampling] can cause. *)
Definition construction_event (ev : event) : Prop :=
  match ev with
  | GetModel _ | SetDoublePrecision _ _ | ConstructSampler _ => True
  | _ => False
  end.

(** From [fs] to [fs'] every path outside the tree at [p] is as it was,
    but for directories on the way to [p] that were missing and have been
    made. *)
Definition confined (p : path) (fs fs' : filesystem) : Prop :=
  forall q, ~ p `prefix_of` q ->
    fs' !! q = fs !! q \/
    (q `prefix_of` p /\ fs !! q = None /\ fs' !! q = Some Dir).

(** The start value a value of the [initialize_using] dict stands for; a
    file that does not load stands for no voxels. *)
Definition resolved_value (C : Collaborators) (fs : filesystem) (mask : list bool)
    (value : dict_value) : init_value :=
  match value with
  | FileName file => PerVoxel (create_roi C (default [] (nib_load C fs file)) mask)
  | Number x => Scalar x
  | Volume v => PerVoxel (create_roi C v mask)
  end.

(** The value can be resolved: it is no file, or a file that loads. *)
Definition loads (C : Collaborators) (fs : filesystem) (value : dict_value) : Prop :=
  match value with
  | FileName file => is_Some (nib_load C fs file)
  | _ => True
  end.

(** The events of reading start values. *)
Definition reading_event (ev : event) : Prop :=
  match ev with
  | LogInfo _ | ReadVolumeMaps _ | NibLoad _ => True
  | _ => False
  end.

(** The files the items of a dict name, in the order of the items. *)
Definition files_of (items : list (string * dict_value)) : list path :=
  omap (fun item => match item.2 with FileName file => Some file | _ => None end) items.

(** Modelled from the spec: the processing strategy and [load_samples],
    which [src/] does not hold, keep the idempotence contract when a strategy
    that returns samples leaves the output complete for the model and
    [load_samples] reads back from the output path the samples that were
    returned. *)
Definition persisting (C : Collaborators) (self : SampleSingleModel.self) : Prop :=
  forall maps fs0 samples fs1,
    SampleSingleModel._processing_strategy self
      (set_initial_parameters (SampleSingleModel.bound_model self) maps)
      (SampleSingleModel._problem_data self) (SampleSingleModel._output_path self)
      (SampleSingleModel.recalculate self) (SampleSingleModel._sampler self)
      (SampleSingleModel._store_samples self) fs0 = (Ok samples, fs1) ->
    model_output_exists C fs1 (SampleSingleModel.bound_model self)
      (SampleSingleModel._output_path self ++ ["volume_maps"%string]) = true /\
    load_samples C fs1 (SampleSingleModel._output_path self) = samples.

End SamplingSpec.

(** * Theorems *)

(** ** Facts about the primitives *)

Module NpFacts.
Import Np.

Lemma py_index_nonneg (len : nat) (i : Z) :
  0 <= i < Z.of_nat len -> py_index len i = Some (Z.to_nat i).
Proof. intros H. unfold py_index. by rewrite decide_True. Qed.

Lemma getitem_nonneg {A} (l : list A) (i : Z) (x : A) :
  0 <= i -> l !! Z.to_nat i = Some x -> getitem l i = Ok x.
Proof.
  intros Hi Hx. unfold getitem.
  rewrite py_index_nonneg; [by cbn; rewrite Hx|].
  apply lookup_lt_Some in Hx. lia.
Qed.

Lemma getitem_nat {A} (l : list A) (i : nat) (x : A) :
  l !! i = Some x -> getitem l (Z.of_nat i) = Ok x.
Proof. intros Hx. apply getitem_nonneg; [lia|]. by rewrite Nat2Z.id. Qed.

Lemma count_nonneg (n : nat) : count (Z.of_nat n) = Ok n.
Proof. unfold count. rewrite decide_True; [|lia]. by rewrite Nat2Z.id. Qed.

Lemma length_tile_row {A} (reps : nat) (r : list A) :
  length (tile_row reps r) = (reps * length r)%nat.
Proof.
  unfold tile_row. induction reps as [|reps IH]; [done|].
  cbn [replicate concat]. rewrite length_app IH. lia.
Qed.

Lemma lookup_tile_row {A} (reps : nat) (r : list A) (k : nat) :
  (k < reps * length r)%nat -> tile_row reps r !! k = r !! (k mod length r)%nat.
Proof.
  unfold tile_row. revert k. induction reps as [|reps IH]; intros k Hk; [lia|].
  cbn [replicate concat].
  destruct (decide (k < length r)%nat) as [Hlt|Hge].
  - by rewrite lookup_app_l // Nat.mod_small.
  - rewrite lookup_app_r; [|lia]. rewrite IH; [|lia].
    f_equal. replace k with ((k - length r) + 1 * length r)%nat at 2 by lia.
    by rewrite Nat.Div0.mod_add.
Qed.

Lemma length_repeat {A} (v : list A) (m : nat) :
  length (repeat v m) = (length v * m)%nat.
Proof.
  unfold repeat. induction v as [|x v IH]; [done|].
  cbn [flat_map]. rewrite length_app length_replicate IH /=. lia.
Qed.

Lemma lookup_repeat {A} (v : list A) (m k : nat) :
  (0 < m)%nat -> repeat v m !! k = v !! (k / m)%nat.
Proof.
  intros Hm. unfold repeat. revert k. induction v as [|x v IH]; intros k; [done|].
  cbn [flat_map].
  destruct (decide (k < m)%nat) as [Hlt|Hge].
  - rewrite lookup_app_l; [|by rewrite length_replicate].
    rewrite Nat.div_small //. by apply lookup_replicate_2.
  - rewrite lookup_app_r; rewrite length_replicate; [|lia].
    rewrite IH. replace k with ((k - m) + 1 * m)%nat at 2 by lia.
    rewrite Nat.div_add; [|lia]. by rewrite Nat.add_1_r.
Qed.

Lemma length_linspace (a b : Qc) (n : nat) : length (linspace a b n) = n.
Proof.
  destruct n as [|[|d]]; [done..|].
  unfold linspace. by rewrite length_fmap length_seq.
Qed.

Lemma length_arange (n : nat) : length (arange n) = n.
Proof. unfold arange. by rewrite length_fmap length_seq. Qed.

Lemma lookup_arange (n i : nat) : (i < n)%nat -> arange n !! i = Some (Z.of_nat i).
Proof. intros Hi. unfold arange. by rewrite list_lookup_fmap lookup_seq_lt. Qed.

Lemma lookup_omap_total {A B} (f : A -> option B) (l : list A) (i : nat) :
  Forall (fun x => is_Some (f x)) l -> omap f l !! i = l !! i ≫= f.
Proof.
  intros Hl. revert i. induction Hl as [|x l [y Hy] _ IH]; intros i; [done|].
  cbn [omap list_omap]. rewrite Hy. destruct i as [|i]; [by rewrite /= Hy | apply IH].
Qed.

Lemma at2_transpose {A} (a : ndarray2 A) (r k : nat) :
  Forall (fun row => length row = ncols a) (rows a) ->
  (k < ncols a)%nat ->
  at2 (transpose a) k r = cell a r k.
Proof.
  intros Hrows Hk. unfold at2, transpose, cell, column. cbn [rows].
  rewrite list_lookup_fmap lookup_seq_lt //=.
  apply lookup_omap_total. eapply Forall_impl; [exact Hrows|].
  intros row Hrow. apply lookup_lt_is_Some. by rewrite Hrow.
Qed.

Lemma nrows_transpose {A} (a : ndarray2 A) : nrows (transpose a) = ncols a.
Proof. unfold nrows, transpose. cbn [rows]. by rewrite length_fmap length_seq. Qed.

Lemma transpose_row_length {A} (a : ndarray2 A) :
  Forall (fun row => length row = ncols a) (rows a) ->
  Forall (fun row => length row = nrows a) (rows (transpose a)).
Proof.
  intros Hrows. unfold transpose. cbn [rows]. apply Forall_fmap, Forall_forall.
  intros k Hk%elem_of_seq. unfold column, nrows. cbn.
  assert (Hall : Forall (fun row : list A => (k < length row)%nat) (rows a)).
  { eapply Forall_impl; [exact Hrows|]. intros row ->. lia. }
  clear Hrows. induction Hall as [|row l Hrow _ IH]; [done|].
  cbn. destruct (lookup_lt_is_Some_2 _ _ Hrow) as [x ->]. by rewrite /= IH.
Qed.

Lemma mod_mul_mod (k c g : nat) : ((k mod (c * g)) mod c = k mod c)%nat.
Proof.
  rewrite Nat.Div0.mod_mul_r.
  rewrite (Nat.mul_comm c) Nat.Div0.mod_add. apply Nat.Div0.mod_mod.
Qed.

Lemma mod_mul_div (k c g : nat) :
  (0 < c)%nat -> ((k mod (c * g)) / c = (k / c) mod g)%nat.
Proof.
  intros Hc. rewrite Nat.Div0.mod_mul_r.
  rewrite (Nat.mul_comm c) Nat.div_add; [|lia].
  rewrite Nat.div_small; [done|]. apply Nat.mod_upper_bound. lia.
Qed.

End NpFacts.

(** ** The tiling loop *)

Module TilingFacts.
Import Np NpFacts Tiling.

Section place.
Context {A : Type} (astype : A -> A).

Lemma place_well_shaped n c st it :
  well_shaped n c st -> well_shaped n (c * length it.2) (place astype st it).
Proof.
  intros (Hn & Hc & Hm & Hrows). unfold well_shaped, place, nrows in *. cbn.
  rewrite length_insert length_fmap Hc Hm. repeat split; try done.
  apply Forall_insert.
  - apply Forall_fmap. eapply Forall_impl; [exact Hrows|].
    intros row Hrow. cbn. rewrite length_tile_row Hrow. lia.
  - rewrite length_fmap length_repeat. lia.
Qed.

Lemma place_cell_other n c st it r x :
  well_shaped n c st -> r <> it.1 -> (x < c * length it.2)%nat ->
  cell (place astype st it).1 r x = cell st.1 r (x mod c)%nat.
Proof.
  intros (Hn & Hc & Hm & Hrows) Hr Hx. unfold cell, place. cbn.
  rewrite list_lookup_insert_ne; [|congruence]. rewrite list_lookup_fmap.
  destruct (rows st.1 !! r) as [row|] eqn:Hrow; [|done]. cbn.
  assert (length row = c) as Hlen.
  { eapply Forall_lookup_1 in Hrows; [|exact Hrow]. done. }
  rewrite lookup_tile_row; rewrite Hlen; [done|lia].
Qed.

Lemma place_cell_same n c st it x :
  well_shaped n c st -> (it.1 < n)%nat -> (x < c * length it.2)%nat ->
  cell (place astype st it).1 it.1 x = astype <$> it.2 !! (x / c)%nat.
Proof.
  intros (Hn & Hc & Hm & Hrows) Hr Hx. unfold cell, place. cbn.
  rewrite list_lookup_insert_eq; [|by rewrite length_fmap; unfold nrows in Hn; lia].
  cbn. rewrite list_lookup_fmap lookup_repeat Hm; [done|lia].
Qed.

Lemma foldl_place_spec items : forall st n c,
  well_shaped n c st ->
  NoDup items.*1 ->
  Forall (fun it => (it.1 < n)%nat) items ->
  well_shaped n (c * product (lengths items)) (foldl (place astype) st items) /\
  forall k, (k < c * product (lengths items))%nat ->
    (forall r, r ∉ items.*1 ->
       cell (foldl (place astype) st items).1 r k = cell st.1 r (k mod c)%nat) /\
    (forall j it, items !! j = Some it ->
       cell (foldl (place astype) st items).1 it.1 k
       = astype <$> it.2 !! ((k / (c * product (lengths (take j items)))) mod length it.2)%nat).
Proof.
  induction items as [|it0 items IH]; intros st n c Hst Hnd Hlt.
  - cbn. rewrite Nat.mul_1_r. split; [done|]. intros k Hk. split.
    + intros r _. by rewrite Nat.mod_small.
    + intros j it Hj. done.
  - cbn [foldl lengths product foldr fmap list_fmap] in *.
    apply NoDup_cons in Hnd as [Hnotin Hnd]. apply Forall_cons in Hlt as [Hlt0 Hlt].
    pose proof (place_well_shaped n c st it0 Hst) as Hst1.
    destruct (IH _ _ _ Hst1 Hnd Hlt) as [Hshape Hcells].
    fold (lengths items) in *.
    rewrite (Nat.mul_assoc c). split; [done|]. intros k Hk.
    destruct (Hcells k Hk) as [Hother Hsame].
    assert (0 < c * length it0.2)%nat as Hpos.
    { destruct (c * length it0.2)%nat; [cbn in Hk|]; lia. }
    assert (k mod (c * length it0.2) < c * length it0.2)%nat as Hmod.
    { apply Nat.mod_upper_bound. lia. }
    split.
    + intros r Hr. apply not_elem_of_cons in Hr as [Hr0 Hr].
      rewrite Hother; [|done].
      rewrite (place_cell_other n c); [|done..]. by rewrite mod_mul_mod.
    + intros [|j] it Hj; cbn in Hj.
      * injection Hj as <-. cbn [take lengths fmap list_fmap product foldr].
        rewrite Hother; [|done]. rewrite (place_cell_same n c); [|done..].
        rewrite mod_mul_div; [|lia]. by rewrite Nat.mul_1_r.
      * rewrite (Hsame j it Hj). cbn [take lengths fmap list_fmap product foldr].
        fold (lengths (take j items)). by rewrite (Nat.mul_assoc c).
Qed.

End place.

End TilingFacts.

(** ** The two generators as tiling loops *)

Module SimulationsFacts.
Import Np NpFacts Tiling TilingFacts Simulations GridSpec.

Lemma count_ok (z : Z) : 0 <= z -> count z = Ok (Z.to_nat z).
Proof. intros Hz. unfold count. by rewrite decide_True. Qed.

Lemma set_row_ok {A} (astype : A -> A) (a : ndarray2 A) (i : Z) (v : list A) :
  0 <= i < Z.of_nat (nrows a) -> length v = ncols a ->
  set_row astype a i v = Ok (Array2 (ncols a) (<[Z.to_nat i := astype <$> v]> (rows a))).
Proof.
  intros Hi Hv. unfold set_row. rewrite py_index_nonneg; [|done].
  cbn. by rewrite decide_True.
Qed.

Lemma permutate_step_place lower_bounds upper_bounds grid_size np_dtype n c st item placed :
  well_shaped n c st ->
  grid_item lower_bounds upper_bounds grid_size n item placed ->
  permutate_step lower_bounds upper_bounds grid_size np_dtype st item
  = Ok (place np_dtype st placed).
Proof.
  intros (Hn & Hc & Hm & _) (g & lo & hi & Hg & Hg0 & Hp & Hlo & Hhi & ->).
  destruct st as [a m], item as [i p]. cbn in *. unfold permutate_step.
  rewrite (getitem_nat _ _ _ Hg). cbn.
  rewrite (count_ok _ Hg0). cbn.
  rewrite (getitem_nonneg _ _ _ (proj1 Hp) Hlo). cbn.
  rewrite (getitem_nonneg _ _ _ (proj1 Hp) Hhi). cbn.
  rewrite set_row_ok.
  - cbn. unfold place. cbn. by rewrite length_linspace.
  - unfold nrows, tile in *. cbn. rewrite length_fmap. lia.
  - unfold tile. cbn. rewrite length_repeat length_linspace. lia.
Qed.

Lemma permutate_loop_place lower_bounds upper_bounds grid_size np_dtype n items placed :
  Forall2 (grid_item lower_bounds upper_bounds grid_size n) items placed ->
  forall c st, well_shaped n c st ->
  for_each (permutate_step lower_bounds upper_bounds grid_size np_dtype) items st
  = Ok (foldl (place np_dtype) st placed).
Proof.
  induction 1 as [|item pl items placed Hitem _ IH]; intros c st Hst; [done|].
  cbn [for_each foldl].
  rewrite (permutate_step_place _ _ _ _ _ _ _ _ _ Hst Hitem). cbn.
  eapply IH, place_well_shaped, Hst.
Qed.

Lemma indices_step_place grid_size n c st ind placed :
  well_shaped n c st ->
  index_item grid_size n ind placed ->
  indices_step (GridList grid_size) st ind = Ok (place (fun z => z) st placed).
Proof.
  intros (Hn & Hc & Hm & _) (g & Hg & Hg0 & Hind & ->).
  destruct st as [a m]. cbn in *. unfold indices_step.
  rewrite (getitem_nat _ _ _ Hg). cbn.
  rewrite (count_ok _ Hg0). cbn.
  rewrite set_row_ok.
  - cbn. unfold place. cbn. by rewrite length_arange Nat2Z.id.
  - unfold nrows, tile in *. cbn. rewrite length_fmap. lia.
  - unfold tile. cbn. rewrite length_repeat length_arange. lia.
Qed.

Lemma indices_loop_place grid_size n inds placed :
  Forall2 (index_item grid_size n) inds placed ->
  forall c st, well_shaped n c st ->
  for_each (indices_step (GridList grid_size)) inds st
  = Ok (foldl (place (fun z => z)) st placed).
Proof.
  induction 1 as [|ind pl inds placed Hitem _ IH]; intros c st Hst; [done|].
  cbn [for_each foldl].
  rewrite (indices_step_place _ _ _ _ _ _ Hst Hitem). cbn.
  eapply IH, place_well_shaped, Hst.
Qed.

End SimulationsFacts.

(** ** What the two generators return on a valid input *)

Module GridTheory.
Import Np NpFacts Tiling TilingFacts Simulations GridSpec SimulationsFacts.

Lemma product_pos (l : list nat) (x : nat) :
  (0 < product l)%nat -> x ∈ l -> (0 < x)%nat.
Proof.
  induction l as [|y l IH]; intros Hpos Hx; [by apply elem_of_nil in Hx|].
  cbn in Hpos. apply Nat.lt_0_mul' in Hpos as [Hy Hl].
  apply elem_of_cons in Hx as [->|Hx]; [done|by apply IH].
Qed.

Lemma coordinate_lt grid_size i g k :
  grid_size !! i = Some g -> (k < product (sizes grid_size))%nat ->
  (coordinate grid_size i g k < Z.to_nat g)%nat.
Proof.
  intros Hg Hk. apply Nat.mod_upper_bound.
  assert (0 < Z.to_nat g)%nat; [|lia].
  apply (product_pos (sizes grid_size)); [lia|].
  apply list_elem_of_fmap. exists g. split; [done|].
  by eapply list_elem_of_lookup_2.
Qed.

Lemma lengths_placed_values lo hi var grid :
  length grid = length var ->
  lengths (placed_values lo hi var grid) = sizes grid.
Proof.
  unfold lengths, placed_values, sizes.
  revert grid. induction var as [|p var IH]; intros [|g grid] Hlen; try done.
  cbn in *. rewrite length_linspace. f_equal. apply IH. lia.
Qed.

Lemma lengths_placed_indices grid : lengths (placed_indices grid) = sizes grid.
Proof.
  unfold placed_indices, lengths, sizes. apply list_eq. intros i.
  rewrite !list_lookup_fmap list_lookup_imap.
  destruct (grid !! i); [|done]. cbn. by rewrite length_arange.
Qed.

Lemma fst_placed_values lo hi var grid :
  length grid = length var ->
  (placed_values lo hi var grid).*1 = Z.to_nat <$> var.
Proof.
  unfold placed_values.
  revert grid. induction var as [|p var IH]; intros [|g grid] Hlen; try done.
  cbn in *. f_equal. apply IH. lia.
Qed.

Lemma fst_placed_indices grid : (placed_indices grid).*1 = seq 0 (length grid).
Proof.
  unfold placed_indices. apply list_eq. intros i.
  rewrite list_lookup_fmap list_lookup_imap.
  destruct (grid !! i) as [g|] eqn:Hg; cbn.
  - symmetry. apply lookup_seq. split; [done|]. by eapply lookup_lt_Some.
  - symmetry. apply lookup_ge_None. rewrite length_seq. by apply lookup_ge_None.
Qed.

Lemma take_placed_values lo hi var grid j :
  take j (placed_values lo hi var grid) = placed_values lo hi (take j var) (take j grid).
Proof. unfold placed_values. by rewrite zip_with_take. Qed.

Lemma grid_items_enumerate lo hi var defaults grid :
  valid_grid var defaults lo hi grid ->
  Forall2 (grid_item lo hi grid (length lo)) (enumerate var) (placed_values lo hi var grid).
Proof.
  intros (Hd & Hu & Hvar & Hnd & Hg & Hg0).
  apply Forall2_same_length_lookup_2.
  - unfold enumerate, placed_values.
    rewrite length_zip length_seq length_zip_with. lia.
  - intros i [i' p] pl Hi Hpl. unfold enumerate, placed_values in *.
    apply lookup_zip_with_Some in Hi as (i'' & p' & [= <- <-] & Hseq & Hp).
    apply lookup_seq in Hseq as [-> _]. cbn in *.
    apply lookup_zip_with_Some in Hpl as (p'' & g & -> & Hp'' & Hgi).
    assert (p'' = p) as -> by congruence.
    pose proof (Forall_lookup_1 _ _ _ _ Hvar Hp) as Hrange. cbn in Hrange.
    pose proof (Forall_lookup_1 _ _ _ _ Hg0 Hgi) as Hgpos. cbn in Hgpos.
    destruct (lookup_lt_is_Some_2 lo (Z.to_nat p)) as [l Hl]; [lia|].
    destruct (lookup_lt_is_Some_2 hi (Z.to_nat p)) as [h Hh]; [lia|].
    exists g, l, h. unfold bound. rewrite Hl Hh. cbn. done.
Qed.

Lemma index_items_seq grid :
  Forall (fun g => 0 <= g) grid ->
  Forall2 (index_item grid (length grid)) (seq 0 (length grid)) (placed_indices grid).
Proof.
  intros Hg0. apply Forall2_same_length_lookup_2.
  - unfold placed_indices. by rewrite length_seq length_imap.
  - intros i i' pl Hseq Hpl. apply lookup_seq in Hseq as [-> Hi]. cbn.
    unfold placed_indices in Hpl. rewrite list_lookup_imap in Hpl.
    destruct (grid !! i) as [g|] eqn:Hgi; [|done]. injection Hpl as <-.
    exists g. repeat split; try done.
    by apply (Forall_lookup_1 _ _ _ _ Hg0 Hgi).
Qed.

Lemma cell_defaults (np_dtype : Qc -> Qc) (default_values : list Qc) (r : nat) :
  cell (Array2 1 ((fun d => [np_dtype d]) <$> default_values)) r 0
  = np_dtype <$> default_values !! r.
Proof.
  unfold cell. cbn. rewrite list_lookup_fmap. by destruct (default_values !! r).
Qed.

(** Every cell of the matrix [permutate_parameters] returns. *)
Theorem permutate_parameters_spec var defaults lo hi grid np_dtype :
  valid_grid var defaults lo hi grid ->
  exists M,
    permutate_parameters var defaults lo hi (GridList grid) np_dtype = Ok M /\
    nrows M = product (sizes grid) /\
    ncols M = length lo /\
    Forall (fun row => length row = length lo) (rows M) /\
    forall k, (k < product (sizes grid))%nat ->
      (forall c, Z.of_nat c ∉ var -> at2 M k c = np_dtype <$> defaults !! c) /\
      (forall i p g, var !! i = Some p -> grid !! i = Some g ->
         at2 M k (Z.to_nat p)
         = np_dtype <$> linspace (bound lo p) (bound hi p) (Z.to_nat g)
                          !! coordinate grid i g k).
Proof.
  intros Hvalid. pose proof Hvalid as (Hd & Hu & Hvar & Hnd & Hg & Hg0).
  unfold permutate_parameters. rewrite decide_True; [|done].
  set (st0 := (Array2 1 ((fun d => [np_dtype d]) <$> defaults), 1%nat)).
  assert (well_shaped (length lo) 1 st0) as Hst0.
  { unfold well_shaped, st0, nrows. cbn. rewrite length_fmap.
    repeat split; try done. apply Forall_fmap, Forall_true. done. }
  rewrite (permutate_loop_place _ _ _ _ _ _ _ (grid_items_enumerate _ _ _ _ _ Hvalid) 1 st0 Hst0).
  cbn.
  destruct (foldl_place_spec np_dtype (placed_values lo hi var grid) st0 (length lo) 1 Hst0)
    as [(Hn & Hc & _ & Hrows) Hcells].
  { rewrite fst_placed_values; [|done].
    apply NoDup_fmap_2_strong; [|done].
    intros x y Hx Hy Heq.
    pose proof (proj1 (Forall_forall _ _) Hvar x Hx) as Hxr.
    pose proof (proj1 (Forall_forall _ _) Hvar y Hy) as Hyr. cbn in Hxr, Hyr. lia. }
  { apply Forall_forall. intros [P v] Hin. cbn.
    assert (P ∈ (placed_values lo hi var grid).*1) as HP.
    { apply list_elem_of_fmap. by exists (P, v). }
    rewrite fst_placed_values in HP; [|done].
    apply list_elem_of_fmap in HP as (p & -> & Hp).
    pose proof (proj1 (Forall_forall _ _) Hvar p Hp) as Hrange. cbn in Hrange. lia. }
  rewrite lengths_placed_values in Hn Hc Hrows Hcells; [|done..].
  rewrite Nat.mul_1_l in Hc Hrows Hcells.
  set (a := (foldl (place np_dtype) st0 (placed_values lo hi var grid)).1) in *.
  exists (transpose a). split; [done|].
  split; [by rewrite nrows_transpose|].
  split; [done|].
  assert (Forall (fun row => length row = ncols a) (rows a)) as Hrows'.
  { by rewrite Hc. }
  split.
  { rewrite <-Hn. by apply transpose_row_length. }
  intros k Hk. destruct (Hcells k Hk) as [Hother Hsame]. split.
  - intros c Hcvar. rewrite at2_transpose; [|done|by rewrite Hc].
    rewrite Hother.
    + rewrite Nat.mod_1_r. apply cell_defaults.
    + rewrite fst_placed_values; [|done].
      intros (p & -> & Hp)%list_elem_of_fmap. apply Hcvar.
      pose proof (proj1 (Forall_forall _ _) Hvar p Hp) as Hrange. cbn in Hrange.
      rewrite Z2Nat.id; [done|lia].
  - intros i p g Hp Hgi. rewrite at2_transpose; [|done|by rewrite Hc].
    assert (placed_values lo hi var grid !! i
            = Some (Z.to_nat p, linspace (bound lo p) (bound hi p) (Z.to_nat g))) as Hpl.
    { unfold placed_values. apply lookup_zip_with_Some. by exists p, g. }
    rewrite (Hsame i _ Hpl). cbn [fst snd].
    rewrite length_linspace Nat.mul_1_l take_placed_values lengths_placed_values.
    + done.
    + rewrite !length_take. lia.
Qed.

(** Every cell of the matrix [get_permuted_indices] returns. *)
Theorem get_permuted_indices_spec grid :
  Forall (fun g => 0 <= g) grid ->
  exists I,
    get_permuted_indices (Z.of_nat (length grid)) (GridList grid) = Ok I /\
    nrows I = product (sizes grid) /\
    ncols I = length grid /\
    forall k, (k < product (sizes grid))%nat ->
      forall i g, grid !! i = Some g ->
        at2 I k i = Some (Z.of_nat (coordinate grid i g k)).
Proof.
  intros Hg0. unfold get_permuted_indices. rewrite count_nonneg. cbn.
  set (st0 := (Array2 1 (replicate (length grid) [0]), 1%nat)).
  assert (well_shaped (length grid) 1 st0) as Hst0.
  { unfold well_shaped, st0, nrows. cbn. rewrite length_replicate.
    repeat split; try done. apply Forall_replicate. done. }
  rewrite (indices_loop_place _ _ _ _ (index_items_seq _ Hg0) 1 st0 Hst0). cbn.
  destruct (foldl_place_spec (fun z => z) (placed_indices grid) st0 (length grid) 1 Hst0)
    as [(Hn & Hc & _ & Hrows) Hcells].
  { rewrite fst_placed_indices. apply NoDup_seq. }
  { apply Forall_forall. intros [P v] Hin. cbn.
    assert (P ∈ (placed_indices grid).*1) as HP.
    { apply list_elem_of_fmap. by exists (P, v). }
    rewrite fst_placed_indices in HP. apply elem_of_seq in HP. lia. }
  rewrite lengths_placed_indices in Hn Hc Hrows Hcells.
  rewrite Nat.mul_1_l in Hc Hrows Hcells.
  set (a := (foldl (place (fun z => z)) st0 (placed_indices grid)).1) in *.
  exists (transpose a). split; [done|].
  split; [by rewrite nrows_transpose|].
  split; [done|].
  intros k Hk i g Hgi. destruct (Hcells k Hk) as [_ Hsame].
  rewrite at2_transpose; [|by rewrite Hc..].
  assert (placed_indices grid !! i = Some (i, arange (Z.to_nat g))) as Hpl.
  { unfold placed_indices. by rewrite list_lookup_imap Hgi. }
  rewrite (Hsame i _ Hpl). cbn [fst snd].
  rewrite length_arange Nat.mul_1_l.
  assert (lengths (take i (placed_indices grid)) = sizes (take i grid)) as ->.
  { unfold placed_indices, lengths, sizes. apply list_eq. intros j.
    rewrite !list_lookup_fmap !lookup_take list_lookup_imap.
    case_decide; [|done]. destruct (grid !! j); [|done]. cbn. by rewrite length_arange. }
  fold (stride grid i). fold (coordinate grid i g k).
  rewrite lookup_arange; [done|by apply coordinate_lt].
Qed.

End GridTheory.

Module SimulationsExamples.
Import Np Simulations GridSpec.

Example permutate_3_by_2 :
  permutate_parameters [0; 1] [q 1; q 2; q 3] [q 0; q 0; q 3] [q 2; q 4; q 3]
                       (GridList [3; 2]) (fun x => x)
  = Ok (Array2 3 [[q 0; q 0; q 3]; [q 1; q 0; q 3]; [q 2; q 0; q 3];
                  [q 0; q 4; q 3]; [q 1; q 4; q 3]; [q 2; q 4; q 3]]).
Proof. compute_done. Qed.

Example indices_3_by_2 :
  get_permuted_indices 2 (GridList [3; 2])
  = Ok (Array2 2 [[0; 0]; [1; 0]; [2; 0]; [0; 1]; [1; 1]; [2; 1]]).
Proof. reflexivity. Qed.

End SimulationsExamples.

(** ** The element type conversion happens once per element *)

Module DtypeFacts.
Import Np NpFacts Simulations.

Section conversion.
Context (f : Qc -> Qc).

Lemma tile_row_fmap (reps : nat) (r : list Qc) :
  tile_row reps (f <$> r) = f <$> tile_row reps r.
Proof.
  unfold tile_row. induction reps as [|reps IH]; [done|].
  cbn [replicate concat]. by rewrite fmap_app IH.
Qed.

Lemma tile_array_map (a : ndarray2 Qc) (reps : nat) :
  tile (array_map f a) reps = array_map f (tile a reps).
Proof.
  unfold tile, array_map. cbn. f_equal.
  rewrite -!list_fmap_compose. apply list_fmap_ext. intros _ r _.
  apply tile_row_fmap.
Qed.

Lemma set_row_array_map (a : ndarray2 Qc) (i : Z) (v : list Qc) :
  set_row f (array_map f a) i v = array_map f <$> set_row (fun x => x) a i v.
Proof.
  unfold set_row, array_map, nrows. cbn. rewrite length_fmap.
  destruct (py_index (length (rows a)) i) as [j|]; [|done]. cbn.
  case_decide.
  - cbn. by rewrite list_fmap_insert list_fmap_id.
  - destruct v as [|x [|y v]]; try done.
    cbn. by rewrite list_fmap_insert fmap_replicate.
Qed.

Lemma permutate_step_array_map lo hi grid st item :
  permutate_step lo hi grid f (state_map f st) item
  = state_map f <$> permutate_step lo hi grid (fun x => x) st item.
Proof.
  destruct st as [a m], item as [i p]. unfold permutate_step, state_map. cbn [fst snd].
  destruct (getitem grid (Z.of_nat i)) as [g|]; [|done]. cbn.
  destruct (count g) as [reps|]; [|done]. cbn.
  destruct (getitem lo p) as [l|]; [|done]. cbn.
  destruct (getitem hi p) as [h|]; [|done]. cbn.
  rewrite tile_array_map set_row_array_map.
  by destruct (set_row _ _ _ _).
Qed.

Lemma for_each_array_map lo hi grid items : forall st,
  for_each (permutate_step lo hi grid f) items (state_map f st)
  = state_map f <$> for_each (permutate_step lo hi grid (fun x => x)) items st.
Proof.
  induction items as [|item items IH]; intros st; [done|].
  cbn [for_each]. rewrite permutate_step_array_map.
  destruct (permutate_step lo hi grid _ st item) as [st'|]; [|done]. cbn.
  apply IH.
Qed.

Lemma column_array_map (a : ndarray2 Qc) (k : nat) :
  column (array_map f a) k = f <$> column a k.
Proof.
  unfold column, array_map. cbn.
  induction (rows a) as [|r l IH]; [done|].
  cbn. rewrite list_lookup_fmap. destruct (r !! k); cbn; by rewrite IH.
Qed.

Lemma transpose_array_map (a : ndarray2 Qc) :
  transpose (array_map f a) = array_map f (transpose a).
Proof.
  pose proof (column_array_map a) as Hcol.
  unfold array_map in Hcol |- *. unfold transpose, nrows. cbn [rows ncols].
  f_equal.
  - by rewrite length_fmap.
  - rewrite -list_fmap_compose. apply list_fmap_ext. intros _ k _.
    apply Hcol.
Qed.

(** The matrix built for an element type is the matrix built exactly,
    converted element by element. *)
Theorem permutate_parameters_astype var defaults lo hi grid :
  permutate_parameters var defaults lo hi grid f
  = array_map f <$> permutate_parameters var defaults lo hi grid (fun x => x).
Proof.
  unfold permutate_parameters. case_decide; [|done].
  set (gs := match grid with GridNumber g => _ | GridList l => l end).
  replace (Array2 1 ((fun d => [f d]) <$> defaults), 1%nat)
    with (state_map f (Array2 1 ((fun d => [d]) <$> defaults), 1%nat)).
  2:{ unfold state_map, array_map. cbn. by rewrite -list_fmap_compose. }
  rewrite for_each_array_map.
  destruct (for_each _ _ _) as [st|]; [|done]. cbn.
  by rewrite transpose_array_map.
Qed.

End conversion.

End DtypeFacts.

(** ** The claims about the grid generators *)

Module GridClaims.
Import Np NpFacts Tiling TilingFacts Simulations GridSpec SimulationsFacts GridTheory DtypeFacts.

Lemma Qc_of_nat_nonzero (d : nat) : (0 < d)%nat -> Qc_of_nat d <> Q2Qc 0.
Proof.
  intros Hd Heq. unfold Qc_of_nat, Qc_of_Z in Heq.
  apply Q2Qc_eq_iff in Heq. unfold Qeq in Heq. cbn in Heq. lia.
Qed.

(** The points of [linspace] are evenly spaced: point [j] is [j] steps of
    [(stop - start) / (num - 1)] away from [start], the last one included. *)
Lemma lookup_linspace (a b : Qc) (n j : nat) :
  (2 <= n)%nat -> (j < n)%nat ->
  linspace a b n !! j = Some (linear_point a b n j).
Proof.
  intros Hn Hj. destruct n as [|[|d]]; [lia..|].
  unfold linspace, linear_point. rewrite list_lookup_fmap lookup_seq_lt; [|done].
  cbn [fmap option_fmap option_map Nat.add Nat.sub].
  case_decide as Hlast; [|done]. subst j. f_equal.
  pose proof (Qc_of_nat_nonzero (S d) ltac:(lia)) as Hnz.
  field. exact Hnz.
Qed.

Lemma linspace_first (a b : Qc) (n : nat) :
  (1 <= n)%nat -> linspace a b n !! 0%nat = Some a.
Proof.
  intros Hn. destruct n as [|[|d]]; [lia|reflexivity|].
  rewrite lookup_linspace; [|lia..]. f_equal. unfold linear_point.
  replace (Qc_of_nat 0) with (Q2Qc 0) by (apply Qc_is_canon; reflexivity).
  ring.
Qed.

Lemma linspace_last (a b : Qc) (n : nat) :
  (2 <= n)%nat -> linspace a b n !! (n - 1)%nat = Some b.
Proof.
  intros Hn. destruct n as [|[|d]]; [lia..|].
  unfold linspace. rewrite list_lookup_fmap lookup_seq_lt; [|lia].
  cbn [fmap option_fmap option_map Nat.add Nat.sub].
  by rewrite decide_True.
Qed.

Lemma linspace_single (a b : Qc) : linspace a b 1 = [a].
Proof. reflexivity. Qed.

Lemma elem_of_realized {A} (M : ndarray2 A) (k c : nat) (v : A) :
  at2 M k c = Some v -> v ∈ realized M c.
Proof.
  unfold at2, realized. intros Hv.
  destruct (rows M !! k) as [row|] eqn:Hrow; [|done]. cbn in Hv.
  apply list_elem_of_omap. exists row. split; [|done].
  by eapply list_elem_of_lookup_2.
Qed.

Lemma product_split (l : list nat) (i x : nat) :
  l !! i = Some x ->
  product l = (product (take i l) * (x * product (drop (S i) l)))%nat.
Proof.
  unfold product. revert i. induction l as [|y l IH]; intros [|i] Hi; try done.
  - injection Hi as ->. cbn. rewrite drop_0. lia.
  - cbn in Hi. cbn [take drop foldr]. rewrite (IH i Hi). ring.
Qed.

(** Some row has grid coordinate [j] along the [i]-th varying parameter,
    for every [j] below its grid size. *)
Lemma coordinate_reached grid i g j :
  grid !! i = Some g -> (0 < product (sizes grid))%nat -> (j < Z.to_nat g)%nat ->
  exists k, (k < product (sizes grid))%nat /\ coordinate grid i g k = j.
Proof.
  intros Hg Hpos Hj. exists (j * stride grid i)%nat.
  assert (sizes grid !! i = Some (Z.to_nat g)) as Hsz.
  { unfold sizes. by rewrite list_lookup_fmap Hg. }
  pose proof (product_split _ _ _ Hsz) as Hsplit.
  unfold coordinate, stride, sizes in *. rewrite !fmap_take.
  set (s := product (take i (Z.to_nat <$> grid))) in *.
  set (r := product (drop (S i) (Z.to_nat <$> grid))) in *.
  assert (0 < s)%nat by (destruct s; lia).
  assert (0 < r)%nat by (destruct r; lia).
  split.
  - rewrite Hsplit.
    apply Nat.lt_le_trans with (Z.to_nat g * s)%nat.
    + apply Nat.mul_lt_mono_pos_r; [done|lia].
    + rewrite (Nat.mul_comm s) -Nat.mul_assoc (Nat.mul_comm r).
      apply Nat.mul_le_mono_l. rewrite <-(Nat.mul_1_r s) at 1.
      apply Nat.mul_le_mono_l. lia.
  - rewrite Nat.div_mul; [by apply Nat.mod_small|lia].
Qed.

(** C5, as the code has it: on a valid input the matrix has one row per
    combination and one column per parameter; a column that is not varied
    holds the default, converted to the element type, on every row; a varied
    column holds on row [k] the point of its evenly spaced range at the grid
    coordinate of [k], so the lower bound is realized whenever there is a
    row, and the upper bound whenever in addition the grid size of the
    parameter is at least two; with grid size one every row holds the lower
    bound. *)
Theorem C5_permutate_parameters_grid var defaults lo hi grid np_dtype :
  valid_grid var defaults lo hi grid ->
  exists M,
    permutate_parameters var defaults lo hi (GridList grid) np_dtype = Ok M /\
    nrows M = product (sizes grid) /\
    ncols M = length lo /\
    Forall (fun row => length row = length lo) (rows M) /\
    (forall k c d, (k < product (sizes grid))%nat ->
       Z.of_nat c ∉ var -> defaults !! c = Some d ->
       at2 M k c = Some (np_dtype d)) /\
    (forall i p g l h,
       var !! i = Some p -> grid !! i = Some g ->
       lo !! Z.to_nat p = Some l -> hi !! Z.to_nat p = Some h ->
       (forall k, (k < product (sizes grid))%nat ->
          at2 M k (Z.to_nat p)
          = Some (np_dtype (if decide (g = 1) then l
                            else linear_point l h (Z.to_nat g) (coordinate grid i g k)))) /\
       ((0 < product (sizes grid))%nat -> np_dtype l ∈ realized M (Z.to_nat p)) /\
       ((0 < product (sizes grid))%nat -> 2 <= g -> np_dtype h ∈ realized M (Z.to_nat p))).
Proof.
  intros Hvalid.
  destruct (permutate_parameters_spec _ _ _ _ _ np_dtype Hvalid)
    as (M & HM & Hrows & Hcols & Hlen & Hcells).
  exists M. do 4 (split; [done|]). split.
  - intros k c d Hk Hc Hd. destruct (Hcells k Hk) as [Hother _].
    by rewrite (Hother c Hc) Hd.
  - intros i p g l h Hp Hg Hl Hh.
    assert (forall k, (k < product (sizes grid))%nat ->
              at2 M k (Z.to_nat p)
              = np_dtype <$> linspace l h (Z.to_nat g) !! coordinate grid i g k) as Hcell.
    { intros k Hk. destruct (Hcells k Hk) as [_ Hsame].
      rewrite (Hsame i p g Hp Hg). unfold bound. by rewrite Hl Hh. }
    split; [|split].
    + intros k Hk. rewrite (Hcell k Hk).
      pose proof (coordinate_lt _ _ _ _ Hg Hk) as Hlt.
      case_decide as Hg1.
      * subst g. change (Z.to_nat 1) with 1%nat in *.
        replace (coordinate grid i 1 k) with 0%nat by lia. done.
      * rewrite lookup_linspace; [done|lia|done].
    + intros Hpos.
      destruct (coordinate_reached grid i g 0 Hg Hpos) as (k & Hk & Hco).
      { pose proof (coordinate_lt _ _ _ _ Hg Hpos). lia. }
      apply (elem_of_realized M k). rewrite (Hcell k Hk) Hco.
      rewrite linspace_first; [done|].
      pose proof (coordinate_lt _ _ _ _ Hg Hpos). lia.
    + intros Hpos Hg2.
      destruct (coordinate_reached grid i g (Z.to_nat g - 1) Hg Hpos) as (k & Hk & Hco);
        [lia|].
      apply (elem_of_realized M k). rewrite (Hcell k Hk) Hco.
      rewrite linspace_last; [done|lia].
Qed.

Lemma C5_permutate_parameters_grid_witness :
  exists M,
    permutate_parameters [0; 1] [q 1; q 2; q 3] [q 0; q 0; q 3] [q 2; q 4; q 3]
                         (GridList [3; 2]) (fun x => x) = Ok M /\
    nrows M = 6%nat /\ ncols M = 3%nat.
Proof.
  destruct (C5_permutate_parameters_grid [0; 1] [q 1; q 2; q 3] [q 0; q 0; q 3]
              [q 2; q 4; q 3] [3; 2] (fun x => x)) as (M & HM & Hrows & Hcols & _).
  - unfold valid_grid. repeat split; try reflexivity; compute_done.
  - exists M. repeat split; done.
Defined.

(** C5 as the specification words it fails.  With grid size one the upper
    bound is not among the realized values.  And the matrix holds its values
    in its element type: with [int64] the three points from 1/2 to 5/2 are
    stored as 0, 1 and 2, and neither bound is among them. *)
Lemma C5_upper_bound_not_realized :
  (valid_grid [0] [q 5] [q 0] [q 1] [1] /\
   exists M,
     permutate_parameters [0] [q 5] [q 0] [q 1] (GridList [1]) (fun x => x) = Ok M /\
     q 1 ∉ realized M 0) /\
  (valid_grid [0] [q 0] [(q 1 / q 2)%Qc] [(q 5 / q 2)%Qc] [3] /\
   permutate_parameters [0] [q 0] [(q 1 / q 2)%Qc] [(q 5 / q 2)%Qc] (GridList [3]) int64
   = Ok (Array2 1 [[q 0]; [q 1]; [q 2]]) /\
   ((q 1 / q 2)%Qc ∉ realized (Array2 1 [[q 0]; [q 1]; [q 2]]) 0) /\
   ((q 5 / q 2)%Qc ∉ realized (Array2 1 [[q 0]; [q 1]; [q 2]]) 0)).
Proof.
  split.
  - split.
    + unfold valid_grid. repeat split; try reflexivity; compute_done.
    + eexists. split; [reflexivity|]. compute_done.
  - split; [unfold valid_grid; repeat split; try reflexivity; compute_done|].
    split; [compute_done|]. split; compute_done.
Qed.

(** C6: the documented call yields six rows, column 2 is 3 on every row,
    and column 0 runs through 0, 1, 2 for column 1 at 0 and then at 4: the
    first varying parameter changes fastest.  The element type only has to
    represent the integers 0 to 4 exactly. *)
Theorem C6_permutate_parameters_example (np_dtype : Qc -> Qc) :
  (forall z, 0 <= z <= 4 -> np_dtype (q z) = q z) ->
  permutate_parameters [0; 1] [q 1; q 2; q 3] [q 0; q 0; q 3] [q 2; q 4; q 3]
                       (GridList [3; 2]) np_dtype
  = Ok (Array2 3 [[q 0; q 0; q 3]; [q 1; q 0; q 3]; [q 2; q 0; q 3];
                  [q 0; q 4; q 3]; [q 1; q 4; q 3]; [q 2; q 4; q 3]]).
Proof.
  intros Hexact.
  rewrite permutate_parameters_astype.
  replace (permutate_parameters _ _ _ _ _ (fun x => x))
    with (@Ok exn _ (Array2 3 [[q 0; q 0; q 3]; [q 1; q 0; q 3]; [q 2; q 0; q 3];
                               [q 0; q 4; q 3]; [q 1; q 4; q 3]; [q 2; q 4; q 3]]))
    by (symmetry; compute_done).
  unfold array_map. cbn -[q].
  rewrite !Hexact; [done|lia..].
Qed.

Lemma C6_permutate_parameters_example_witness :
  permutate_parameters [0; 1] [q 1; q 2; q 3] [q 0; q 0; q 3] [q 2; q 4; q 3]
                       (GridList [3; 2]) (fun x => x)
  = Ok (Array2 3 [[q 0; q 0; q 3]; [q 1; q 0; q 3]; [q 2; q 0; q 3];
                  [q 0; q 4; q 3]; [q 1; q 4; q 3]; [q 2; q 4; q 3]]).
Proof.
  apply (C6_permutate_parameters_example (fun x => x)). intros z Hz. reflexivity.
Defined.

(** C7, as the code has it: on a valid input with the grid sizes in a
    list, the grid coordinate [get_permuted_indices] gives at row [k] for the
    [i]-th varying parameter indexes the range of that parameter at the value
    [permutate_parameters] stores, converted to its element type, at row [k]
    in the column of the parameter.  When the list holds one and the same
    size for every parameter, [permutate_parameters] returns the same matrix
    for that size given as a number. *)
Theorem C7_indices_match_values var defaults lo hi grid np_dtype :
  valid_grid var defaults lo hi grid ->
  exists M I,
    permutate_parameters var defaults lo hi (GridList grid) np_dtype = Ok M /\
    get_permuted_indices (Z.of_nat (length var)) (GridList grid) = Ok I /\
    nrows I = nrows M /\
    (forall g0, grid = replicate (length var) g0 ->
       permutate_parameters var defaults lo hi (GridNumber g0) np_dtype = Ok M) /\
    forall k i p g l h,
      (k < nrows M)%nat ->
      var !! i = Some p -> grid !! i = Some g ->
      lo !! Z.to_nat p = Some l -> hi !! Z.to_nat p = Some h ->
      exists idx v,
        at2 I k i = Some idx /\
        getitem (linspace l h (Z.to_nat g)) idx = Ok v /\
        at2 M k (Z.to_nat p) = Some (np_dtype v).
Proof.
  intros Hvalid. pose proof Hvalid as (_ & _ & _ & _ & Hlen & Hg0).
  destruct (permutate_parameters_spec _ _ _ _ _ np_dtype Hvalid)
    as (M & HM & Hrows & _ & _ & Hcells).
  destruct (get_permuted_indices_spec grid Hg0) as (I & HI & HIrows & _ & Hidx).
  rewrite Hlen in HI.
  exists M, I. split; [done|]. split; [done|]. split; [congruence|].
  split; [intros g0 Hgrid; by rewrite -HM Hgrid|].
  intros k i p g l h Hk Hp Hg Hl Hh. rewrite Hrows in Hk.
  pose proof (coordinate_lt _ _ _ _ Hg Hk) as Hlt.
  destruct (lookup_lt_is_Some_2 (linspace l h (Z.to_nat g)) (coordinate grid i g k))
    as [v Hv]; [by rewrite length_linspace|].
  exists (Z.of_nat (coordinate grid i g k)), v. split; [by apply Hidx|]. split.
  - by apply getitem_nat.
  - destruct (Hcells k Hk) as [_ Hsame].
    rewrite (Hsame i p g Hp Hg). unfold bound. by rewrite Hl Hh /= Hv.
Qed.

Lemma C7_indices_match_values_witness :
  exists M I,
    permutate_parameters [0; 1] [q 1; q 2; q 3] [q 0; q 0; q 3] [q 2; q 4; q 3]
                         (GridList [3; 2]) (fun x => x) = Ok M /\
    get_permuted_indices 2 (GridList [3; 2]) = Ok I /\
    nrows I = nrows M.
Proof.
  destruct (C7_indices_match_values [0; 1] [q 1; q 2; q 3] [q 0; q 0; q 3]
              [q 2; q 4; q 3] [3; 2] (fun x => x)) as (M & I & HM & HI & Hrows & _).
  - unfold valid_grid. repeat split; try reflexivity; compute_done.
  - exists M, I. repeat split; done.
Defined.

(** C7 as the specification words it fails.  The matrix holds its values
    in its element type: with [int64] and three points from 1/2 to 5/2, the
    coordinate at row 1 is 1 and indexes the point 3/2, where the matrix
    holds 1.  And with the grid size given as a number, which
    [permutate_parameters] takes, [get_permuted_indices] returns no
    coordinate at all. *)
Lemma C7_value_not_reproduced :
  (valid_grid [0] [q 0] [(q 1 / q 2)%Qc] [(q 5 / q 2)%Qc] [3] /\
   permutate_parameters [0] [q 0] [(q 1 / q 2)%Qc] [(q 5 / q 2)%Qc] (GridList [3]) int64
   = Ok (Array2 1 [[q 0]; [q 1]; [q 2]]) /\
   get_permuted_indices 1 (GridList [3]) = Ok (Array2 1 [[0]; [1]; [2]]) /\
   getitem (linspace (q 1 / q 2)%Qc (q 5 / q 2)%Qc 3) 1 = Ok (q 3 / q 2)%Qc /\
   (q 3 / q 2)%Qc <> q 1) /\
  (permutate_parameters [0] [q 5] [q 0] [q 1] (GridNumber 2) (fun x => x)
   = Ok (Array2 1 [[q 0]; [q 1]]) /\
   get_permuted_indices 1 (GridNumber 2) = Raise TypeError).
Proof.
  split.
  - split; [unfold valid_grid; repeat split; try reflexivity; compute_done|].
    repeat split; compute_done.
  - split; [compute_done|reflexivity].
Qed.

(** [permutate_parameters] treats a number as that many copies of it. *)
Lemma permutate_parameters_broadcast var defaults lo hi g np_dtype :
  permutate_parameters var defaults lo hi (GridNumber g) np_dtype
  = permutate_parameters var defaults lo hi (GridList (replicate (length var) g)) np_dtype.
Proof. reflexivity. Qed.

(** [get_permuted_indices] subscripts a number as soon as there is a
    varying parameter. *)
Lemma get_permuted_indices_number n g :
  0 < n -> get_permuted_indices n (GridNumber g) = Raise TypeError.
Proof.
  intros Hn. unfold get_permuted_indices. rewrite count_ok; [|lia]. cbn.
  destruct (Z.to_nat n) as [|m] eqn:Hm; [lia|]. reflexivity.
Qed.

(** C9 at one varying parameter and grid size 2: the list [[2]] gives the
    two coordinates, the number 2 raises. *)
Theorem C9_get_permuted_indices_number_raises :
  get_permuted_indices 1 (GridList [2]) = Ok (Array2 1 [[0]; [1]]) /\
  get_permuted_indices 1 (GridNumber 2) = Raise TypeError.
Proof. split; reflexivity. Qed.

End GridClaims.

(** ** The claims about the noise routines *)

Module NoiseClaims.
Import Np Protocols Noise.

#[local] Open Scope R_scope.

Lemma sqrt_out_same_shape (a out : list R) :
  length a = length out -> sqrt_out a out = sqrt <$> a.
Proof.
  unfold sqrt_out. revert out. induction a as [|v a IH]; intros [|o out] Hlen; try done.
  cbn in *. f_equal. apply IH. lia.
Qed.

Lemma sqrt_pow2_abs (v : R) : sqrt (v ^ 2) = Rabs v.
Proof. rewrite <-Rsqr_pow2. apply sqrt_Rsqr_abs. Qed.

(** C10: the result is the absolute value of the signal plus the first
    noise component, converted to the element type of the signals; the
    second draw does not enter it. *)
Theorem C10_make_rician_distributed (astype : R -> R) (x_draws y_draws : nat -> R)
    (signals : list R) (noise_level : R) :
  make_rician_distributed astype x_draws y_draws signals noise_level
  = imap (fun i s => astype (Rabs (s + noise_level * x_draws i))) signals
  /\ forall y_draws',
       make_rician_distributed astype x_draws y_draws' signals noise_level
       = make_rician_distributed astype x_draws y_draws signals noise_level.
Proof.
  assert (forall y, make_rician_distributed astype x_draws y signals noise_level
     = imap (fun i s => astype (Rabs (s + noise_level * x_draws i))) signals) as Hval.
  { intros y. unfold make_rician_distributed, normal.
    rewrite sqrt_out_same_shape;
      [|rewrite !length_fmap length_zip_with !length_fmap !length_seq; lia].
    apply list_eq. intros i.
    rewrite !list_lookup_fmap list_lookup_imap lookup_zip_with !list_lookup_fmap.
    destruct (signals !! i) as [s|] eqn:Hs.
    - rewrite lookup_seq_lt; [|by eapply lookup_lt_Some]. cbn.
      rewrite sqrt_pow2_abs. do 3 f_equal. lra.
    - rewrite lookup_seq_ge; [|by apply lookup_ge_None]. done. }
  split; [apply Hval|]. intros y'. by rewrite !Hval.
Qed.

(** What the code and the estimator of the specification return on
    [two_volumes] when the optimizer returns the baseline [e]. *)
Lemma estimate_noise_std_two_volumes (load_protocol : string -> Protocol) (e : R) :
  estimate_noise_std load_protocol (fun _ _ => [e]) two_volumes both_unweighted
  = Ok (sqrt (((1 - e) ^ 2 + (3 - e) ^ 2) / 1 / 2)).
Proof.
  unfold estimate_noise_std, two_volumes, both_unweighted. cbn.
  f_equal. unfold np_mean, np_sum. cbn. rewrite Rdiv_1_r Rplus_0_r.
  f_equal. field.
Qed.

Lemma estimate_noise_std_spec_two_volumes (load_protocol : string -> Protocol) (e : R) :
  estimate_noise_std_spec load_protocol (fun _ _ => [e]) two_volumes both_unweighted
  = Ok (sqrt (((1 - e) ^ 2 + (3 - e) ^ 2) / 2 / 2)).
Proof.
  unfold estimate_noise_std_spec, two_volumes, both_unweighted. cbn.
  f_equal. unfold np_mean, np_sum. cbn. rewrite Rdiv_1_r Rplus_0_r.
  f_equal. field.
Qed.

(** With the least-squares baseline 2 the code returns 1. *)
Example estimate_noise_std_least_squares (load_protocol : string -> Protocol) :
  estimate_noise_std load_protocol (fun _ _ => [2]) two_volumes both_unweighted = Ok 1.
Proof.
  rewrite estimate_noise_std_two_volumes. f_equal.
  replace (((1 - 2) ^ 2 + (3 - 2) ^ 2) / 1 / 2) with 1 by lra. apply sqrt_1.
Qed.

(** C2 fails on the code: the sum of squares of a problem is divided by the
    number of problems, not by the number of unweighted measurements.  On
    one problem with two unweighted volumes, whatever baseline [e] the
    optimizer returns, the code yields [sqrt (S / 1 / 2)] and the estimator
    of the specification [sqrt (S / 2 / 2)], for [S] the sum of the squared
    residuals; the two differ. *)
Theorem C2_estimate_noise_std_divisor (load_protocol : string -> Protocol) (e : R) :
  let S := (1 - e) ^ 2 + (3 - e) ^ 2 in
  estimate_noise_std load_protocol (fun _ _ => [e]) two_volumes both_unweighted
  = Ok (sqrt (S / 1 / 2)) /\
  estimate_noise_std_spec load_protocol (fun _ _ => [e]) two_volumes both_unweighted
  = Ok (sqrt (S / 2 / 2)) /\
  sqrt (S / 1 / 2) <> sqrt (S / 2 / 2).
Proof.
  intros S. split; [apply estimate_noise_std_two_volumes|].
  split; [apply estimate_noise_std_spec_two_volumes|].
  assert (0 < S) as HS.
  { replace S with (2 * (e - 2) ^ 2 + 2) by (unfold S; ring).
    pose proof (pow2_ge_0 (e - 2)). lra. }
  intros Heq. apply sqrt_inj in Heq; lra.
Qed.

End NoiseClaims.

(** ** The sampler *)

Module SamplingFacts.
Import Protocols Sampling.

Lemma rmtree_gone (fs fs1 : filesystem) (p q : path) :
  rmtree fs p = Ok fs1 -> p `prefix_of` q -> fs1 !! q = None.
Proof.
  unfold rmtree. destruct (fs !! p) as [[|data]|]; try done.
  intros [= <-] Hpre. apply map_lookup_filter_None. right. intros x _ Hnot. by apply Hnot.
Qed.

Lemma rmtree_other (fs fs1 : filesystem) (p q : path) :
  rmtree fs p = Ok fs1 -> ~ p `prefix_of` q -> fs1 !! q = fs !! q.
Proof.
  unfold rmtree. destruct (fs !! p) as [[|data]|]; try done.
  intros [= <-] Hpre. destruct (fs !! q) as [x|] eqn:Hq.
  - by apply map_lookup_filter_Some.
  - apply map_lookup_filter_None. by left.
Qed.

Lemma rmtree_isdir (fs : filesystem) (p : path) :
  isdir fs p = true -> exists fs1, rmtree fs p = Ok fs1.
Proof.
  unfold isdir, rmtree. destruct (fs !! p) as [[|data]|]; try done. eauto.
Qed.

Lemma ancestors_snoc (p : path) (c : string) :
  ancestors (p ++ [c]) = ancestors p ++ [p ++ [c]].
Proof.
  unfold ancestors. rewrite length_app /= Nat.add_1_r seq_S fmap_app. cbn.
  f_equal.
  - apply list_fmap_ext. intros i n Hn. apply lookup_seq in Hn as [-> Hlt].
    rewrite take_app_le; [done|lia].
  - rewrite (take_ge (p ++ [c])); [done|]. rewrite length_app /=. lia.
Qed.

(** With a file on the way, [makedirs] names the directory below it. *)
Example makedirs_below_a_file :
  makedirs {[ ["out"%string] := File [] ]} ["out"; "Tensor"; "samples"]%string
  = Raise (NotADirectoryError ["out"; "Tensor"]%string).
Proof. reflexivity. Qed.

(** A successful [makedirs] leaves a directory at its path. *)
Lemma makedirs_isdir (fs fs1 : filesystem) (p : path) :
  p <> [] -> makedirs fs p = Ok fs1 -> isdir fs1 p = true.
Proof.
  intros Hp. unfold makedirs. destruct (exists_ fs p) eqn:Hex; [done|].
  destruct (list_find _ _) as [[? ?]|]; [done|]. intros [= <-].
  destruct (exists_last Hp) as (p' & c & ->) .
  rewrite ancestors_snoc foldl_app. cbn.
  set (fs' := foldl _ fs (ancestors p')).
  assert (fs' !! (p' ++ [c]) = None \/ fs' !! (p' ++ [c]) = Some Dir) as Hinv.
  { unfold fs'. generalize (ancestors p'). intros l.
    induction l as [|a l IH] using rev_ind.
    - left. cbn. unfold exists_ in Hex. by destruct (fs !! (p' ++ [c])).
    - rewrite foldl_app. cbn. destruct (exists_ _ a); [done|].
      destruct (decide (a = p' ++ [c])) as [->|Hne].
      + right. apply lookup_insert_eq.
      + by rewrite lookup_insert_ne. }
  unfold exists_, isdir. destruct Hinv as [Hnone|Hdir].
  - by rewrite Hnone lookup_insert_eq.
  - by rewrite Hdir Hdir.
Qed.

End SamplingFacts.

(** ** The claims about the sampler *)

Module SamplingClaims.
Import Protocols Sampling SamplingFacts Scenario SamplingSpec.

#[local] Open Scope string_scope.

Ltac io_step :=
  unfold mbind, io_bind, mret, io_ret, emit, get_fs, put_fs, lift, raise; cbn.

Lemma io_bind_ok {A B} (m : io A) (k : A -> io B) (w w' : world) (a : A) :
  m w = (Ok a, w') -> (m ≫= k) w = k a w'.
Proof. intros H. unfold mbind, io_bind. by rewrite H. Qed.

Lemma io_bind_raise {A B} (m : io A) (k : A -> io B) (w w' : world) (e : exn) :
  m w = (Raise e, w') -> (m ≫= k) w = (Raise e, w').
Proof. intros H. unfold mbind, io_bind. by rewrite H. Qed.

(** C3: a cascade model makes the construction of [ModelSampling] fail with
    the [ValueError] of the cascade check.  Given as an object, nothing at all
    has happened by then; given by name, only the lookup of the name.  The
    file system is as it was. *)
Theorem C3_cascade_rejected (C : Collaborators) (m : Model)
    problem_data output_folder sampler recalculate cl_device_ind double_precision
    initialize initialize_using store_samples tmp_results_dir (w : world) :
  kind m = Cascade ->
  ModelSampling.__init__ C (ModelSampling.ModelObject m) problem_data output_folder sampler
    recalculate cl_device_ind double_precision initialize initialize_using store_samples
    tmp_results_dir w
  = (Raise (ValueError ModelSampling.cascade_message), w)
  /\ forall model_name, get_model C model_name = Some m ->
       ModelSampling.__init__ C (ModelSampling.ModelName model_name) problem_data
         output_folder sampler recalculate cl_device_ind double_precision initialize
         initialize_using store_samples tmp_results_dir w
       = (Raise (ValueError ModelSampling.cascade_message),
          World (fs w) (trace w ++ [GetModel model_name])).
Proof.
  intros Hkind. split.
  - unfold ModelSampling.__init__. io_step. by rewrite Hkind.
  - intros model_name Hget. unfold ModelSampling.__init__. io_step.
    by rewrite Hget /= Hkind.
Qed.

Lemma C3_cascade_rejected_witness :
  ModelSampling.__init__ collaborators (ModelSampling.ModelObject tensor_cascade) with_b
    ["out"] None false NoDeviceIndex true true UseNone true TmpTrue empty_world
  = (Raise (ValueError ModelSampling.cascade_message), empty_world).
Proof.
  apply (C3_cascade_rejected collaborators tensor_cascade with_b ["out"] None false
           NoDeviceIndex true true UseNone true TmpTrue empty_world).
  reflexivity.
Defined.

(** C4, as the code has it: when the protocol is insufficient for a model
    that is not a cascade, the construction of [ModelSampling] raises
    [InsufficientProtocolError] with the problems the model reports; by then
    the precision flag is set and a default sampler may have been looked up,
    the file system is as it was.  The constructor of [SampleSingleModel]
    raises the same error on its own, for every model, and does nothing
    else. *)
Theorem C4_insufficient_protocol (C : Collaborators) (m : Model)
    problem_data output_folder sampler recalculate cl_device_ind double_precision
    initialize initialize_using store_samples tmp_results_dir processing_strategy
    sampler' (w : world) :
  is_protocol_sufficient m (protocol problem_data) = false ->
  (kind m = Composite ->
   exists events,
     ModelSampling.__init__ C (ModelSampling.ModelObject m) problem_data output_folder
       sampler recalculate cl_device_ind double_precision initialize initialize_using
       store_samples tmp_results_dir w
     = (Raise (InsufficientProtocolError ModelSampling.insufficient_message
                 (get_protocol_problems m (protocol problem_data))),
        World (fs w) (trace w ++ events))
     /\ events = SetDoublePrecision (name m) double_precision ::
                 match sampler with
                 | None => [ConstructSampler (name m)]
                 | Some _ => []
                 end)
  /\ SampleSingleModel.__init__ m problem_data output_folder sampler' processing_strategy
       recalculate initialize initialize_using store_samples
     = Raise (InsufficientProtocolError SampleSingleModel.insufficient_message
                (get_protocol_problems m (protocol problem_data))).
Proof.
  intros Hins. split.
  - intros Hkind. eexists. split; [|reflexivity].
    unfold ModelSampling.__init__. io_step. rewrite Hkind. io_step.
    destruct sampler as [s|]; io_step; rewrite Hins; cbn.
    + done.
    + by rewrite -app_assoc.
  - unfold SampleSingleModel.__init__. by rewrite Hins.
Qed.

Lemma C4_insufficient_protocol_witness :
  SampleSingleModel.__init__ tensor without_b ["out"] (SamplerFor "Tensor") one_map_strategy
    false true UseNone true
  = Raise (InsufficientProtocolError SampleSingleModel.insufficient_message
             ["Missing column b"]).
Proof.
  apply (C4_insufficient_protocol collaborators tensor without_b ["out"] None false
           NoDeviceIndex true true UseNone true TmpTrue one_map_strategy
           (SamplerFor "Tensor") empty_world).
  reflexivity.
Defined.

(** C4 as the specification words it fails for a cascade model: the
    cascade check comes first, and [ModelSampling] raises its [ValueError]
    although the protocol is insufficient. *)
Lemma C4_cascade_with_insufficient_protocol :
  is_protocol_sufficient tensor_cascade (protocol without_b) = false /\
  ModelSampling.__init__ collaborators (ModelSampling.ModelObject tensor_cascade) without_b
    ["out"] None false NoDeviceIndex true true UseNone true TmpTrue empty_world
  = (Raise (ValueError ModelSampling.cascade_message), empty_world).
Proof. split; reflexivity. Qed.

Section initialization.
Context (C : Collaborators) (self : SampleSingleModel.self).

(** Resolving one dict value returns or fails on a file that is not
    there. *)
Lemma resolve_outcome (item : string * dict_value) (w : world) :
  (exists kv w', SampleSingleModel.resolve C self item w = (Ok kv, w')) \/
  (exists file w', SampleSingleModel.resolve C self item w = (Raise (FileNotFoundError file), w')).
Proof.
  destruct item as [key [file|x|v]]; unfold SampleSingleModel.resolve; io_step.
  - destruct (nib_load C (fs w) file); cbn; eauto.
  - eauto.
  - eauto.
Qed.

Lemma mapM_resolve_outcome (items : list (string * dict_value)) : forall w,
  (exists r w', mapM (SampleSingleModel.resolve C self) items w = (Ok r, w')
                /\ length r = length items) \/
  (exists file w', mapM (SampleSingleModel.resolve C self) items w
                   = (Raise (FileNotFoundError file), w')).
Proof.
  induction items as [|item items IH]; intros w.
  - left. by exists [], w.
  - cbn [mapM].
    destruct (resolve_outcome item w) as [(kv & w1 & Hit)|(file & w1 & Hit)].
    + rewrite (io_bind_ok _ _ _ _ _ Hit).
      destruct (IH w1) as [(r & w2 & Hrest & Hlen)|(file & w2 & Hrest)].
      * left. exists (kv :: r), w2. rewrite (io_bind_ok _ _ _ _ _ Hrest).
        split; [done|]. cbn. by rewrite Hlen.
      * right. exists file, w2. by rewrite (io_bind_raise _ _ _ _ _ Hrest).
    + right. exists file, w1. by rewrite (io_bind_raise _ _ _ _ _ Hit).
Qed.

Lemma is_falsy_fmap {A B} (f : A -> B) (m : gmap string A) :
  is_falsy (Some (f <$> m)) = true <-> m = ∅.
Proof.
  unfold is_falsy. rewrite <-(fmap_empty_iff f), <-map_to_list_empty_iff.
  by destruct (map_to_list (f <$> m)).
Qed.

Lemma read_maps_run (folder : path) (w : world) :
  SampleSingleModel.read_maps C self folder w
  = (Ok (create_roi_maps C (read_volume_maps C (fs w) folder)
           (mask (SampleSingleModel._problem_data self))),
     World (fs w) (trace w ++ [LogInfo "Initializing sampler using maps in {}";
                               ReadVolumeMaps folder])).
Proof.
  unfold SampleSingleModel.read_maps. io_step. by rewrite -app_assoc.
Qed.

Lemma resolve_reads (item : string * dict_value) (w : world) :
  exists r events,
    SampleSingleModel.resolve C self item w = (r, World (fs w) (trace w ++ events)) /\
    Forall reading_event events.
Proof.
  destruct item as [key [file|x|v]]; unfold SampleSingleModel.resolve; io_step.
  - destruct (nib_load C (fs w) file); cbn; eexists _, [NibLoad file];
      (split; [reflexivity|by repeat constructor]).
  - eexists _, []. rewrite app_nil_r. split; [by destruct w|done].
  - eexists _, []. rewrite app_nil_r. split; [by destruct w|done].
Qed.

Lemma mapM_resolve_reads (items : list (string * dict_value)) : forall w,
  exists r events,
    mapM (SampleSingleModel.resolve C self) items w = (r, World (fs w) (trace w ++ events)) /\
    Forall reading_event events.
Proof.
  induction items as [|item items IH]; intros w.
  - eexists _, []. rewrite app_nil_r. split; [by destruct w|done].
  - cbn [mapM]. destruct (resolve_reads item w) as ([kv|e] & events & Hit & Hev).
    + rewrite (io_bind_ok _ _ _ _ _ Hit).
      destruct (IH (World (fs w) (trace w ++ events))) as ([r|e] & events' & Hrest & Hev').
      * rewrite (io_bind_ok _ _ _ _ _ Hrest). eexists _, (events ++ events')%list.
        cbn. rewrite app_assoc. split; [done|by apply Forall_app].
      * rewrite (io_bind_raise _ _ _ _ _ Hrest). eexists _, (events ++ events')%list.
        cbn. rewrite app_assoc. split; [done|by apply Forall_app].
    + rewrite (io_bind_raise _ _ _ _ _ Hit). by eexists _, events.
Qed.

Lemma initialization_frame (w : world) :
  exists r events,
    SampleSingleModel._get_initialization_params C self w
    = (r, World (fs w) (trace w ++ events)) /\
    Forall reading_event events.
Proof.
  unfold SampleSingleModel._get_initialization_params.
  destruct (SampleSingleModel._initialize self).
  - destruct (SampleSingleModel._initialize_using self) as [|folder|d|].
    + rewrite (io_bind_ok _ _ _ _ _ (io_bind_ok _ _ _ _ _ (read_maps_run _ w))).
      destruct (is_falsy _); eexists _, _;
        (split; [reflexivity|by repeat constructor]).
    + rewrite (io_bind_ok _ _ _ _ _ (io_bind_ok _ _ _ _ _ (read_maps_run _ w))).
      destruct (is_falsy _); eexists _, _;
        (split; [reflexivity|by repeat constructor]).
    + set (w0 := World (fs w) (trace w ++ [LogInfo "Initializing sampler using given maps."])).
      assert (emit (LogInfo "Initializing sampler using given maps.") w = (Ok tt, w0))
        as Hlog by done.
      destruct (mapM_resolve_reads (map_to_list d) w0) as ([r|e] & events & Hrun & Hev).
      * rewrite (io_bind_ok _ _ _ _ _
                   (eq_trans (io_bind_ok _ _ _ _ _ Hlog) (io_bind_ok _ _ _ _ _ Hrun))).
        cbn [mret io_ret fs trace w0].
        destruct (is_falsy _);
          eexists _, (LogInfo "Initializing sampler using given maps." :: events);
          cbn; rewrite -app_assoc; (split; [reflexivity|by constructor]).
      * rewrite (io_bind_raise _ _ _ _ _
                   (eq_trans (io_bind_ok _ _ _ _ _ Hlog) (io_bind_raise _ _ _ _ _ Hrun))).
        eexists _, (LogInfo "Initializing sampler using given maps." :: events).
        cbn. rewrite -app_assoc. split; [reflexivity|by constructor].
    + cbn. eexists _, []. rewrite app_nil_r. split; [by destruct w|done].
  - eexists _, []. rewrite app_nil_r. split; [by destruct w|done].
Qed.

(** C8: without [initialize] the resolver returns the empty mapping and
    does nothing.  With [initialize] it raises the [RuntimeError] "no
    initialization maps found" exactly when the maps of the selected source
    are empty: no volume map in the folder of the model (for [None]) or in the
    given folder, or an empty dict; a source of another type has no maps.
    When it raises, [sample] raises the same error and the strategy is not
    run. *)
Theorem C8_initialization_resolver (w : world) :
  (SampleSingleModel._initialize self = false ->
     SampleSingleModel._get_initialization_params C self w = (Ok ∅, w)) /\
  (SampleSingleModel._initialize self = true ->
     ((SampleSingleModel._get_initialization_params C self w).1
      = Raise (SampleSingleModel.no_maps self) <->
      match SampleSingleModel._initialize_using self with
      | UseNone => read_volume_maps C (fs w) (SampleSingleModel.default_folder self) = ∅
      | UseFolder folder => read_volume_maps C (fs w) folder = ∅
      | UseDict d => d = ∅
      | UseOther => True
      end)) /\
  (forall model w1 e w2,
     SampleSingleModel._get_initialization_params C self
       (World (fs w1) (trace w1 ++ [LogInfo "Sampling {} model"])) = (Raise e, w2) ->
     SampleSingleModel.sample C self model w1 = (Raise e, w2)).
Proof.
  split; [|split].
  - intros Hinit. unfold SampleSingleModel._get_initialization_params. by rewrite Hinit.
  - intros Hinit. unfold SampleSingleModel._get_initialization_params. rewrite Hinit.
    change (SampleSingleModel._output_folder self ++ [name (SampleSingleModel._model self)])%list
      with (SampleSingleModel.default_folder self).
    change (RuntimeError SampleSingleModel.no_maps_message (SampleSingleModel.default_folder self))
      with (SampleSingleModel.no_maps self).
    destruct (SampleSingleModel._initialize_using self) as [|folder|d|].
    + rewrite (io_bind_ok _ _ _ _ _
                 (io_bind_ok _ _ _ _ _
                    (read_maps_run (SampleSingleModel.default_folder self) w))).
      unfold create_roi_maps. rewrite <-(is_falsy_fmap
        (fun v => PerVoxel (create_roi C v (mask (SampleSingleModel._problem_data self))))).
      destruct (is_falsy _); cbn; split; by intros.
    + rewrite (io_bind_ok _ _ _ _ _
                 (io_bind_ok _ _ _ _ _ (read_maps_run folder w))).
      unfold create_roi_maps. rewrite <-(is_falsy_fmap
        (fun v => PerVoxel (create_roi C v (mask (SampleSingleModel._problem_data self))))).
      destruct (is_falsy _); cbn; split; by intros.
    + set (w0 := World (fs w) (trace w ++ [LogInfo "Initializing sampler using given maps."])).
      assert (emit (LogInfo "Initializing sampler using given maps.") w = (Ok tt, w0))
        as Hlog by done.
      destruct (mapM_resolve_outcome (map_to_list d) w0)
        as [(r & w' & Hmap & Hlen)|(file & w' & Hmap)].
      * rewrite (io_bind_ok _ _ _ _ _
                   (eq_trans (io_bind_ok _ _ _ _ _ Hlog) (io_bind_ok _ _ _ _ _ Hmap))).
        cbn [mret io_ret]. rewrite <-map_to_list_empty_iff.
        destruct (map_to_list d) as [|kv l]; destruct r as [|[k v] r]; try done.
        cbn [list_to_map foldr uncurry]. unfold is_falsy.
        pose proof (insert_non_empty (list_to_map r : gmap string init_value) k v) as Hne.
        apply (not_iff_compat (map_to_list_empty_iff _)) in Hne.
        destruct (map_to_list _); [done|]. cbn. split; by intros.
      * rewrite (io_bind_raise _ _ _ _ _
                   (eq_trans (io_bind_ok _ _ _ _ _ Hlog) (io_bind_raise _ _ _ _ _ Hmap))).
        cbn. split; [done|]. intros ->. rewrite map_to_list_empty in Hmap.
        by cbn in Hmap.
    + cbn. done.
  - intros model w1 e w2 Hraise. unfold SampleSingleModel.sample.
    assert (emit (LogInfo "Sampling {} model") w1
            = (Ok tt, World (fs w1) (trace w1 ++ [LogInfo "Sampling {} model"]))) as Hlog by done.
    rewrite (io_bind_ok _ _ _ _ _ Hlog). by rewrite (io_bind_raise _ _ _ _ _ Hraise).
Qed.

End initialization.

Lemma C8_initialization_resolver_witness :
  (SampleSingleModel._get_initialization_params collaborators
     (tensor_sampler false true (UseDict ∅)) empty_world).1
  = Raise (SampleSingleModel.no_maps (tensor_sampler false true (UseDict ∅))).
Proof.
  apply (C8_initialization_resolver collaborators (tensor_sampler false true (UseDict ∅))
           empty_world); reflexivity.
Defined.

Section run.
Context (C : Collaborators) (self : SampleSingleModel.self).

#[local] Abbreviation p := (SampleSingleModel._output_path self).
#[local] Abbreviation model := (SampleSingleModel.bound_model self).

Lemma emit_run (ev : event) (w : world) :
  emit ev w = (Ok tt, World (fs w) (trace w ++ [ev])).
Proof. reflexivity. Qed.

Lemma get_fs_run (w : world) : get_fs w = (Ok (fs w), w).
Proof. reflexivity. Qed.

Lemma run_enter (w : world) :
  SampleSingleModel.run C self w
  = (if SampleSingleModel.recalculate self then
       _ ← (if exists_ (fs w) p then
              _ ← emit (Rmtree p);
              fs' ← lift (rmtree (fs w) p);
              put_fs fs'
            else mret tt);
       SampleSingleModel.process C self model
     else
       if model_output_exists C (fs w) model (p ++ ["volume_maps"]) then
         _ ← emit (LogInfo "Not recalculating {} model");
         _ ← emit (LoadSamples p);
         mret (load_samples C (fs w) p)
       else SampleSingleModel.process C self model)
      (SampleSingleModel.entered self w).
Proof.
  unfold SampleSingleModel.run.
  rewrite (io_bind_ok _ _ _ _ _ (emit_run _ w)).
  rewrite (io_bind_ok _ _ _ _ _ (emit_run _ _)).
  rewrite (io_bind_ok _ _ _ _ _ (get_fs_run _)).
  unfold SampleSingleModel.entered. cbn [fs trace]. by rewrite -app_assoc.
Qed.

Lemma isdir_exists (fs0 : filesystem) (q : path) : isdir fs0 q = true -> exists_ fs0 q = true.
Proof. unfold isdir, exists_. by destruct (fs0 !! q). Qed.

Lemma ensure_output_path_there (w : world) :
  isdir (fs w) p = true -> SampleSingleModel.ensure_output_path self w = (Ok tt, w).
Proof.
  intros Hdir. unfold SampleSingleModel.ensure_output_path.
  rewrite (io_bind_ok _ _ _ _ _ (get_fs_run _)). by rewrite Hdir.
Qed.

Lemma ensure_output_path_made (w : world) (fs1 : filesystem) :
  isdir (fs w) p = false -> makedirs (fs w) p = Ok fs1 ->
  SampleSingleModel.ensure_output_path self w
  = (Ok tt, World fs1 (trace w ++ [Makedirs p])).
Proof.
  intros Hdir Hmk. unfold SampleSingleModel.ensure_output_path.
  rewrite (io_bind_ok _ _ _ _ _ (get_fs_run _)). rewrite Hdir. cbn [negb].
  rewrite (io_bind_ok _ _ _ _ _ (emit_run _ _)).
  unfold mbind, io_bind, lift, put_fs. cbn. by rewrite Hmk.
Qed.

(** What [sample] does with the outcome of the resolver. *)
Lemma sample_after_initialization (m : Model) (w w1 : world)
    (r0 : result exn (gmap string init_value)) :
  SampleSingleModel._get_initialization_params C self
    (World (fs w) (trace w ++ [LogInfo "Sampling {} model"])) = (r0, w1) ->
  SampleSingleModel.sample C self m w
  = match r0 with
    | Raise e => (Raise e, w1)
    | Ok maps =>
        let '(r, fs') :=
          SampleSingleModel._processing_strategy self (set_initial_parameters m maps)
            (SampleSingleModel._problem_data self) p (SampleSingleModel.recalculate self)
            (SampleSingleModel._sampler self) (SampleSingleModel._store_samples self)
            (fs w1) in
        (r, World fs'
              (trace w1
               ++ [SetInitialParameters (name m) (map_to_list maps).*1;
                   StrategyRun p (SampleSingleModel.recalculate self)]
               ++ match r with
                  | Ok _ => [LogInfo "Sampled {0} model with runtime {1} (h:m:s)."]
                  | Raise _ => []
                  end))
    end.
Proof.
  intros Hparams. unfold SampleSingleModel.sample.
  rewrite (io_bind_ok _ _ _ _ _ (emit_run _ w)).
  destruct r0 as [maps|e].
  - rewrite (io_bind_ok _ _ _ _ _ Hparams).
    rewrite (io_bind_ok _ _ _ _ _ (emit_run _ _)).
    rewrite (io_bind_ok _ _ _ _ _ (emit_run _ _)).
    rewrite (io_bind_ok _ _ _ _ _ (get_fs_run _)). cbn [fs trace].
    destruct (SampleSingleModel._processing_strategy self _ _ _ _ _ _ _) as [[samples|e] fs'];
      io_step; by rewrite -?app_assoc.
  - by rewrite (io_bind_raise _ _ _ _ _ Hparams).
Qed.

(** [sample] from start to end, on the bound model. *)
Lemma sample_outcome (m : Model) (w : world) :
  exists r0 events,
    Forall reading_event events /\
    SampleSingleModel._get_initialization_params C self
      (World (fs w) (trace w ++ [LogInfo "Sampling {} model"]))
    = (r0, World (fs w) (trace w ++ LogInfo "Sampling {} model" :: events)) /\
    match r0 with
    | Raise e =>
        SampleSingleModel.sample C self m w
        = (Raise e, World (fs w) (trace w ++ LogInfo "Sampling {} model" :: events))
    | Ok maps =>
        let '(r, fs') :=
          SampleSingleModel._processing_strategy self (set_initial_parameters m maps)
            (SampleSingleModel._problem_data self) p (SampleSingleModel.recalculate self)
            (SampleSingleModel._sampler self) (SampleSingleModel._store_samples self)
            (fs w) in
        SampleSingleModel.sample C self m w
        = (r, World fs'
                (trace w ++ LogInfo "Sampling {} model" :: events
                 ++ [SetInitialParameters (name m) (map_to_list maps).*1;
                     StrategyRun p (SampleSingleModel.recalculate self)]
                 ++ match r with
                    | Ok _ => [LogInfo "Sampled {0} model with runtime {1} (h:m:s)."]
                    | Raise _ => []
                    end))
    end.
Proof.
  destruct (initialization_frame C self
              (World (fs w) (trace w ++ [LogInfo "Sampling {} model"])))
    as (r0 & events & Hparams & Hev).
  cbn [fs trace] in Hparams. rewrite -app_assoc in Hparams. cbn [app] in Hparams.
  exists r0, events. split; [done|]. split; [done|].
  rewrite (sample_after_initialization m w _ r0 Hparams). destruct r0 as [maps|e]; [|done].
  cbn [fs trace]. destruct (SampleSingleModel._processing_strategy self _ _ _ _ _ _ _) as [r fs'].
  by rewrite -app_assoc.
Qed.

(** Samples that [sample] returns are samples the strategy returned, and
    the file system is then the one the strategy left. *)
Lemma sample_ok (m : Model) (w w1 : world) (samples : Samples) :
  SampleSingleModel.sample C self m w = (Ok samples, w1) ->
  exists maps,
    SampleSingleModel._processing_strategy self (set_initial_parameters m maps)
      (SampleSingleModel._problem_data self) p (SampleSingleModel.recalculate self)
      (SampleSingleModel._sampler self) (SampleSingleModel._store_samples self) (fs w)
    = (Ok samples, fs w1).
Proof.
  destruct (sample_outcome m w) as ([maps|e] & events & _ & _ & Hsample).
  - destruct (SampleSingleModel._processing_strategy self _ _ _ _ _ _ _) as [r fs'] eqn:Hrun.
    rewrite Hsample. intros [= -> <-]. by exists maps.
  - rewrite Hsample. done.
Qed.

Lemma process_ok (m : Model) (w w1 : world) (samples : Samples) :
  SampleSingleModel.process C self m w = (Ok samples, w1) ->
  exists w0, SampleSingleModel.sample C self m w0 = (Ok samples, w1).
Proof.
  unfold SampleSingleModel.process.
  destruct (SampleSingleModel.ensure_output_path self w) as [[[]|e] w0] eqn:Hensure.
  - rewrite (io_bind_ok _ _ _ _ _ Hensure). by exists w0.
  - by rewrite (io_bind_raise _ _ _ _ _ Hensure).
Qed.

(** C1: the resumability decision of [run].  The output path of a constructed sampler is
    [<output_folder>/<model name>/samples].  Entering, the method opens the
    logging context and binds the problem data.  With [recalculate], an output directory that
    is there is removed, with everything below it, before anything else is
    done, and processing starts on what is left.  Without [recalculate], when
    the completeness test on [samples/volume_maps] holds, the persisted
    samples are loaded and returned: the file system is untouched and the
    strategy is not run, so that a second call after a call that left the
    output complete returns what is persisted.  Otherwise processing starts;
    processing makes the output directory when it is missing and then
    samples.  Sampling resolves the start values, which changes no file, and
    then runs the strategy once, on the output path with the [recalculate]
    flag of the object, and returns what the strategy returns; when the
    start values cannot be resolved the strategy is not run.  When the
    strategy and [load_samples] keep the idempotence contract, a call without
    [recalculate] that returned samples is followed by a call that returns
    the same samples and does not run the strategy. *)
Theorem C1_run_resumability (w : world) :
  (forall m problem_data output_folder sampler strategy recalculate initialize
          initialize_using store_samples,
     SampleSingleModel.__init__ m problem_data output_folder sampler strategy recalculate
       initialize initialize_using store_samples = Ok self ->
     p = (output_folder ++ [name m; "samples"])%list) /\
  (SampleSingleModel.recalculate self = true -> isdir (fs w) p = true ->
     exists fs1,
       rmtree (fs w) p = Ok fs1 /\
       (forall q, p `prefix_of` q -> fs1 !! q = None) /\
       SampleSingleModel.run C self w
       = SampleSingleModel.process C self model
           (World fs1 (trace (SampleSingleModel.entered self w) ++ [Rmtree p]))) /\
  (SampleSingleModel.recalculate self = true -> exists_ (fs w) p = false ->
     SampleSingleModel.run C self w
     = SampleSingleModel.process C self model (SampleSingleModel.entered self w)) /\
  (SampleSingleModel.recalculate self = false ->
   model_output_exists C (fs w) model (p ++ ["volume_maps"]) = true ->
     SampleSingleModel.run C self w
     = (Ok (load_samples C (fs w) p),
        World (fs w) (trace (SampleSingleModel.entered self w)
                      ++ [LogInfo "Not recalculating {} model"; LoadSamples p]))) /\
  (SampleSingleModel.recalculate self = false ->
   model_output_exists C (fs w) model (p ++ ["volume_maps"]) = false ->
     SampleSingleModel.run C self w
     = SampleSingleModel.process C self model (SampleSingleModel.entered self w)) /\
  (forall w0, isdir (fs w0) p = true ->
     SampleSingleModel.process C self model w0 = SampleSingleModel.sample C self model w0) /\
  (forall w0 fs1, p <> [] -> isdir (fs w0) p = false -> makedirs (fs w0) p = Ok fs1 ->
     isdir fs1 p = true /\
     SampleSingleModel.process C self model w0
     = SampleSingleModel.sample C self model (World fs1 (trace w0 ++ [Makedirs p]))) /\
  (SampleSingleModel.recalculate self = false ->
   forall r1 w1,
     SampleSingleModel.run C self w = (r1, w1) ->
     model_output_exists C (fs w1) model (p ++ ["volume_maps"]) = true ->
     exists events,
       SampleSingleModel.run C self w1
       = (Ok (load_samples C (fs w1) p), World (fs w1) (trace w1 ++ events)) /\
       forall recalculate, StrategyRun p recalculate ∉ events) /\
  (forall w0,
     exists r0 events,
       Forall reading_event events /\
       SampleSingleModel._get_initialization_params C self
         (World (fs w0) (trace w0 ++ [LogInfo "Sampling {} model"]))
       = (r0, World (fs w0) (trace w0 ++ LogInfo "Sampling {} model" :: events)) /\
       match r0 with
       | Raise e =>
           SampleSingleModel.sample C self model w0
           = (Raise e, World (fs w0) (trace w0 ++ LogInfo "Sampling {} model" :: events))
       | Ok maps =>
           let '(r, fs') :=
             SampleSingleModel._processing_strategy self (set_initial_parameters model maps)
               (SampleSingleModel._problem_data self) p (SampleSingleModel.recalculate self)
               (SampleSingleModel._sampler self) (SampleSingleModel._store_samples self)
               (fs w0) in
           SampleSingleModel.sample C self model w0
           = (r, World fs'
                   (trace w0 ++ LogInfo "Sampling {} model" :: events
                    ++ [SetInitialParameters (name model) (map_to_list maps).*1;
                        StrategyRun p (SampleSingleModel.recalculate self)]
                    ++ match r with
                       | Ok _ => [LogInfo "Sampled {0} model with runtime {1} (h:m:s)."]
                       | Raise _ => []
                       end))
       end) /\
  (SampleSingleModel.recalculate self = false -> persisting C self ->
   forall samples w1,
     SampleSingleModel.run C self w = (Ok samples, w1) ->
     exists events,
       SampleSingleModel.run C self w1
       = (Ok samples, World (fs w1) (trace w1 ++ events)) /\
       forall recalculate, StrategyRun p recalculate ∉ events).
Proof.
  assert (forall w', SampleSingleModel.recalculate self = false ->
            model_output_exists C (fs w') model (p ++ ["volume_maps"]) = true ->
            SampleSingleModel.run C self w'
            = (Ok (load_samples C (fs w') p),
               World (fs w') (trace (SampleSingleModel.entered self w')
                              ++ [LogInfo "Not recalculating {} model"; LoadSamples p])))
    as Hskip.
  { intros w' Hrec Hmarker. rewrite run_enter Hrec. rewrite Hmarker.
    rewrite (io_bind_ok _ _ _ _ _ (emit_run _ _)).
    rewrite (io_bind_ok _ _ _ _ _ (emit_run _ _)).
    cbn. by rewrite -app_assoc. }
  assert (forall w1, SampleSingleModel.recalculate self = false ->
            model_output_exists C (fs w1) model (p ++ ["volume_maps"]) = true ->
            exists events,
              SampleSingleModel.run C self w1
              = (Ok (load_samples C (fs w1) p), World (fs w1) (trace w1 ++ events)) /\
              forall recalculate, StrategyRun p recalculate ∉ events) as Hagain.
  { intros w1 Hrec Hmarker. eexists. split.
    - rewrite (Hskip w1 Hrec Hmarker). unfold SampleSingleModel.entered. cbn [fs trace].
      by rewrite -app_assoc.
    - intros rc Hin%list_elem_of_In. cbn in Hin. intuition discriminate. }
  split; [|split; [|split; [|split; [|split; [|split; [|split; [|split; [|split]]]]]]]].
  - intros m problem_data output_folder sampler strategy recalculate initialize
      initialize_using store_samples.
    unfold SampleSingleModel.__init__. case_match; [done|]. by intros [= <-].
  - intros Hrec Hdir. destruct (rmtree_isdir _ _ Hdir) as [fs1 Hrm].
    exists fs1. split; [done|]. split; [intros q; by apply (rmtree_gone _ _ _ _ Hrm)|].
    rewrite run_enter Hrec.
    rewrite (isdir_exists _ _ Hdir).
    erewrite io_bind_ok; [done|].
    rewrite (io_bind_ok _ _ _ _ _ (emit_run _ _)).
    unfold mbind, io_bind, lift, put_fs. cbn. by rewrite Hrm.
  - intros Hrec Hex. rewrite run_enter Hrec. rewrite Hex.
    by erewrite io_bind_ok.
  - apply Hskip.
  - intros Hrec Hmarker. rewrite run_enter Hrec. by rewrite Hmarker.
  - intros w0 Hdir. unfold SampleSingleModel.process.
    by rewrite (io_bind_ok _ _ _ _ _ (ensure_output_path_there _ Hdir)).
  - intros w0 fs1 Hp Hdir Hmk. split; [by eapply makedirs_isdir|].
    unfold SampleSingleModel.process.
    by rewrite (io_bind_ok _ _ _ _ _ (ensure_output_path_made _ _ Hdir Hmk)).
  - intros Hrec r1 w1 _ Hmarker. by apply Hagain.
  - intros w0. apply sample_outcome.
  - intros Hrec Hpersists samples w1 Hrun.
    destruct (model_output_exists C (fs w) model (p ++ ["volume_maps"])) eqn:Hmarker.
    + rewrite (Hskip w Hrec Hmarker) in Hrun. injection Hrun as <- <-.
      by apply (Hagain (World (fs w) _)).
    + rewrite run_enter Hrec Hmarker in Hrun.
      destruct (process_ok _ _ _ _ Hrun) as (w0 & Hsample).
      destruct (sample_ok _ _ _ _ Hsample) as (maps & Hstrategy).
      destruct (Hpersists maps (fs w0) samples (fs w1) Hstrategy) as [Hcomplete Hload].
      destruct (Hagain w1 Hrec Hcomplete) as (events & Hsecond & Hnot).
      exists events. by rewrite -Hload.
Qed.

End run.

Example tensor_sampler_constructed :
  SampleSingleModel.__init__ tensor with_b ["out"] (SamplerFor "Tensor") one_map_strategy
    false false UseNone true
  = Ok (tensor_sampler false false UseNone).
Proof. reflexivity. Qed.

(** The strategy of the scenario writes the map it returns where
    [load_samples] and the completeness test look for it. *)
Lemma one_map_strategy_persists (recalculate initialize : bool)
    (initialize_using : initialize_using_arg) :
  persisting collaborators (tensor_sampler recalculate initialize initialize_using).
Proof.
  intros maps fs0 samples fs1. cbn. unfold one_map_strategy, exists_.
  intros [= <- <-]. by rewrite !lookup_insert_eq.
Qed.

Lemma C1_run_resumability_witness :
  exists w1 events,
    SampleSingleModel.run collaborators (tensor_sampler false false UseNone) empty_world
    = (Ok {[ "Tensor.d" := [Np.Qc_of_Z 1; Np.Qc_of_Z 2] ]}, w1) /\
    SampleSingleModel.run collaborators (tensor_sampler false false UseNone) w1
    = (Ok {[ "Tensor.d" := [Np.Qc_of_Z 1; Np.Qc_of_Z 2] ]},
       World (fs w1) (trace w1 ++ events)) /\
    forall recalculate, StrategyRun ["out"; "Tensor"; "samples"] recalculate ∉ events.
Proof.
  destruct (SampleSingleModel.run collaborators (tensor_sampler false false UseNone)
              empty_world) as [r1 w1] eqn:Hrun1.
  assert (r1 = Ok {[ "Tensor.d" := [Np.Qc_of_Z 1; Np.Qc_of_Z 2] ]}) as ->.
  { vm_compute in Hrun1. by injection Hrun1 as <- _. }
  pose proof (C1_run_resumability collaborators (tensor_sampler false false UseNone) empty_world)
    as (_ & _ & _ & _ & _ & _ & _ & _ & _ & Hsecond).
  destruct (Hsecond eq_refl (one_map_strategy_persists false false UseNone) _ w1 Hrun1)
    as (events & Hrun2 & Hnot).
  exists w1, events. split; [reflexivity|]. split; [exact Hrun2|exact Hnot].
Defined.

End SamplingClaims.

(** ** More about the grid generators *)

Module GridExtras.
Import Np NpFacts Tiling TilingFacts Simulations GridSpec SimulationsFacts GridTheory
  DtypeFacts GridIndexing.

Lemma for_each_ext {S I} (body1 body2 : S -> I -> result exn S) (items : list I) :
  forall st,
    (forall st it, it ∈ items -> body1 st it = body2 st it) ->
    for_each body1 items st = for_each body2 items st.
Proof.
  induction items as [|it items IH]; intros st Hext; [done|].
  cbn [for_each]. rewrite Hext; [|by left].
  destruct (body2 st it) as [st'|e]; [|done]. cbn.
  apply IH. intros st0 it0 Hin. apply Hext. by right.
Qed.

Lemma for_each_app {S I} (body : S -> I -> result exn S) (l1 l2 : list I) :
  forall st, for_each body (l1 ++ l2) st = for_each body l1 st ≫= for_each body l2.
Proof.
  induction l1 as [|it l1 IH]; intros st; [done|].
  cbn [for_each app]. destruct (body st it) as [st'|e]; [|done]. cbn. apply IH.
Qed.

Lemma getitem_app_l {A} (l l' : list A) (i : nat) :
  (i < length l)%nat -> getitem (l ++ l') (Z.of_nat i) = getitem l (Z.of_nat i).
Proof.
  intros Hi. destruct (lookup_lt_is_Some_2 l i Hi) as [x Hx].
  rewrite (getitem_nat l i x Hx). apply getitem_nat. by rewrite lookup_app_l.
Qed.

Lemma enumerate_lookup {A} (l : list A) (i : nat) (x : A) :
  (i, x) ∈ enumerate l -> l !! i = Some x.
Proof.
  unfold enumerate. intros (j & Hj)%list_elem_of_lookup_1.
  apply lookup_zip_with_Some in Hj as (i' & x' & [= -> ->] & Hseq & Hx).
  apply lookup_seq in Hseq as [-> _]. done.
Qed.

(** Grid sizes beyond the number of varying parameters are not read: the
    longer list gives what its first part gives. *)
Theorem grid_sizes_beyond_ignored var defaults lo hi grid extra np_dtype n :
  (length var <= length grid)%nat ->
  (Z.to_nat n <= length grid)%nat ->
  permutate_parameters var defaults lo hi (GridList (grid ++ extra)) np_dtype
  = permutate_parameters var defaults lo hi (GridList grid) np_dtype
  /\ get_permuted_indices n (GridList (grid ++ extra))
     = get_permuted_indices n (GridList grid).
Proof.
  intros Hvar Hn. split.
  - unfold permutate_parameters. case_decide; [|done].
    rewrite (for_each_ext _ (permutate_step lo hi grid np_dtype)); [done|].
    intros [a m] [i p] Hin. apply enumerate_lookup, lookup_lt_Some in Hin.
    unfold permutate_step. rewrite getitem_app_l; [done|lia].
  - unfold get_permuted_indices. destruct (count n) as [c|] eqn:Hc; [|done]. cbn.
    assert (c = Z.to_nat n) as ->.
    { unfold count in Hc. by case_decide; inversion Hc. }
    rewrite (for_each_ext _ (indices_step (GridList grid))); [done|].
    intros [a m] i Hin%elem_of_seq. unfold indices_step.
    rewrite getitem_app_l; [done|lia].
Qed.

Lemma grid_sizes_beyond_ignored_witness :
  permutate_parameters [0] [q 5] [q 0] [q 1] (GridList ([2] ++ [7; 7])) (fun x => x)
  = permutate_parameters [0] [q 5] [q 0] [q 1] (GridList [2]) (fun x => x).
Proof.
  apply (grid_sizes_beyond_ignored [0] [q 5] [q 0] [q 1] [2] [7; 7] (fun x => x) 1);
    cbn; lia.
Defined.

Lemma getitem_past_end {A} (l : list A) : getitem l (Z.of_nat (length l)) = Raise IndexError.
Proof.
  unfold getitem, py_index.
  rewrite decide_False; [|lia]. rewrite decide_False; [|lia]. done.
Qed.

Lemma enumerate_app {A} (l1 l2 : list A) :
  enumerate (l1 ++ l2) = enumerate l1 ++ zip (seq (length l1) (length l2)) l2.
Proof.
  unfold enumerate. rewrite length_app seq_app. cbn.
  apply zip_with_app. by rewrite length_seq.
Qed.

(** A list of grid sizes shorter than the list of varying indices makes
    [permutate_parameters] raise [IndexError], on an input that is valid
    otherwise. *)
Theorem grid_sizes_too_short var defaults lo hi grid np_dtype :
  length defaults = length lo ->
  length hi = length lo ->
  Forall (fun p => 0 <= p < Z.of_nat (length lo)) var ->
  NoDup var ->
  Forall (fun g => 0 <= g) grid ->
  (length grid < length var)%nat ->
  permutate_parameters var defaults lo hi (GridList grid) np_dtype = Raise IndexError.
Proof.
  intros Hd Hu Hvar Hnd Hg0 Hshort.
  rewrite <-(take_drop (length grid) var) in Hvar, Hnd |- *.
  set (var1 := take (length grid) var) in *.
  assert (length var1 = length grid) as Hlen1.
  { unfold var1. rewrite length_take. lia. }
  destruct (drop (length grid) var) as [|p var2] eqn:Hdrop.
  { apply (f_equal length) in Hdrop. rewrite length_drop in Hdrop. cbn in Hdrop. lia. }
  apply Forall_app in Hvar as [Hvar1 _]. apply NoDup_app in Hnd as (Hnd1 & _ & _).
  assert (valid_grid var1 defaults lo hi grid) as Hvalid by (repeat split; done).
  unfold permutate_parameters. rewrite decide_True; [|done].
  set (st0 := (Array2 1 ((fun d => [np_dtype d]) <$> defaults), 1%nat)).
  assert (well_shaped (length lo) 1 st0) as Hst0.
  { unfold well_shaped, st0, nrows. cbn. rewrite length_fmap.
    repeat split; try done. apply Forall_fmap, Forall_true. done. }
  rewrite enumerate_app for_each_app.
  rewrite (permutate_loop_place _ _ _ _ _ _ _ (grid_items_enumerate _ _ _ _ _ Hvalid) 1 st0 Hst0).
  cbn [mbind result_bind zip zip_with seq length for_each]. rewrite Hlen1.
  destruct (foldl _ _ _) as [a m]. unfold permutate_step.
  by rewrite getitem_past_end.
Qed.

Lemma grid_sizes_too_short_witness :
  permutate_parameters [0; 1] [q 1; q 2] [q 0; q 0] [q 2; q 4] (GridList [3]) (fun x => x)
  = Raise IndexError.
Proof.
  apply grid_sizes_too_short; try reflexivity; compute_done.
Defined.

Lemma py_index_normalize (len : nat) (p : Z) :
  - Z.of_nat len <= p < Z.of_nat len ->
  py_index len (normalize len p) = py_index len p.
Proof.
  intros Hp. unfold normalize. destruct (decide (p < 0)) as [Hneg|Hpos]; [|done].
  unfold py_index.
  rewrite (decide_True (P := 0 <= p + Z.of_nat len < Z.of_nat len)); [|lia].
  rewrite (decide_False (P := 0 <= p < Z.of_nat len)); [|lia].
  rewrite decide_True; [done|lia].
Qed.

Lemma getitem_normalize {A} (l : list A) (p : Z) :
  - Z.of_nat (length l) <= p < Z.of_nat (length l) ->
  getitem l (normalize (length l) p) = getitem l p.
Proof. intros Hp. unfold getitem. by rewrite py_index_normalize. Qed.

Lemma set_row_normalize {A} (f : A -> A) (a : ndarray2 A) (p : Z) (v : list A) :
  - Z.of_nat (nrows a) <= p < Z.of_nat (nrows a) ->
  set_row f a (normalize (nrows a) p) v = set_row f a p v.
Proof. intros Hp. unfold set_row. by rewrite py_index_normalize. Qed.

Lemma set_row_nrows {A} (f : A -> A) (a a' : ndarray2 A) (p : Z) (v : list A) :
  set_row f a p v = Ok a' -> nrows a' = nrows a.
Proof.
  unfold set_row. destruct (py_index _ _) as [j|]; [|done]. cbn.
  case_decide.
  - intros [= <-]. unfold nrows. cbn. by rewrite length_insert.
  - destruct v as [|x [|y v]]; try done.
    intros [= <-]. unfold nrows. cbn. by rewrite length_insert.
Qed.

Lemma permutate_step_nrows lo hi grid np_dtype st item st' :
  permutate_step lo hi grid np_dtype st item = Ok st' -> nrows st'.1 = nrows st.1.
Proof.
  destruct st as [a m], item as [i p]. unfold permutate_step.
  destruct (getitem grid _) as [g|]; [|done]. cbn.
  destruct (count g) as [reps|]; [|done]. cbn.
  destruct (getitem lo p) as [l|]; [|done]. cbn.
  destruct (getitem hi p) as [h|]; [|done]. cbn.
  destruct (set_row _ _ _ _) as [a'|] eqn:Hset; [|done]. cbn.
  intros [= <-]. cbn. apply set_row_nrows in Hset. rewrite Hset.
  unfold nrows, tile. cbn. by rewrite length_fmap.
Qed.

Lemma permutate_step_normalize lo hi grid np_dtype st i p :
  length hi = length lo -> nrows st.1 = length lo ->
  - Z.of_nat (length lo) <= p < Z.of_nat (length lo) ->
  permutate_step lo hi grid np_dtype st (i, normalize (length lo) p)
  = permutate_step lo hi grid np_dtype st (i, p).
Proof.
  intros Hu Hn Hp. destruct st as [a m]. unfold permutate_step. cbn in Hn.
  destruct (getitem grid _) as [g|]; [|done]. cbn.
  destruct (count g) as [reps|]; [|done]. cbn.
  rewrite getitem_normalize; [|done].
  assert (getitem hi (normalize (length lo) p) = getitem hi p) as ->.
  { rewrite -Hu. apply getitem_normalize. by rewrite Hu. }
  assert (nrows (tile a reps) = length lo) as Hn'.
  { unfold nrows, tile. cbn. by rewrite length_fmap. }
  destruct (getitem lo p) as [l|]; [|done]. cbn.
  destruct (getitem hi p) as [h|]; [|done]. cbn.
  assert (forall v, set_row np_dtype (tile a reps) (normalize (length lo) p) v
                    = set_row np_dtype (tile a reps) p v) as ->; [|done].
  intros v. rewrite -Hn'. apply set_row_normalize. by rewrite Hn'.
Qed.

Lemma permutate_loop_normalize lo hi grid np_dtype (vs : list Z) :
  length hi = length lo ->
  Forall (fun p => - Z.of_nat (length lo) <= p < Z.of_nat (length lo)) vs ->
  forall o st, nrows st.1 = length lo ->
    for_each (permutate_step lo hi grid np_dtype)
      (zip (seq o (length (normalize (length lo) <$> vs))) (normalize (length lo) <$> vs)) st
    = for_each (permutate_step lo hi grid np_dtype) (zip (seq o (length vs)) vs) st.
Proof.
  intros Hu Hvs. induction Hvs as [|p vs Hp _ IH]; intros o st Hn; [done|].
  cbn [fmap list_fmap length seq zip zip_with for_each].
  rewrite permutate_step_normalize; [|done..].
  destruct (permutate_step lo hi grid np_dtype st (o, p)) as [st'|e] eqn:Hstep; [|done].
  cbn. apply IH. by rewrite (permutate_step_nrows _ _ _ _ _ _ _ Hstep).
Qed.

(** A varying index below zero counts from the end, as Python indices do:
    it addresses the same parameter as the index with the number of
    parameters added. *)
Theorem negative_index_counts_from_end var defaults lo hi grid np_dtype :
  length hi = length lo ->
  Forall (fun p => - Z.of_nat (length lo) <= p < Z.of_nat (length lo)) var ->
  permutate_parameters var defaults lo hi grid np_dtype
  = permutate_parameters (normalize (length lo) <$> var) defaults lo hi grid np_dtype.
Proof.
  intros Hu Hvar. unfold permutate_parameters. rewrite length_fmap.
  case_decide as Hd; [|done]. unfold enumerate.
  rewrite permutate_loop_normalize; [done..|].
  unfold nrows. cbn. by rewrite length_fmap.
Qed.

Lemma negative_index_counts_from_end_witness :
  permutate_parameters [-1] [q 1; q 2; q 3] [q 0; q 0; q 0] [q 2; q 4; q 6]
    (GridList [2]) (fun x => x)
  = permutate_parameters [2] [q 1; q 2; q 3] [q 0; q 0; q 0] [q 2; q 4; q 6]
    (GridList [2]) (fun x => x).
Proof.
  apply (negative_index_counts_from_end [-1] [q 1; q 2; q 3] [q 0; q 0; q 0]
           [q 2; q 4; q 6] (GridList [2]) (fun x => x)); [reflexivity|compute_done].
Defined.

Lemma stride_cons (g0 : Z) (gs : list Z) (i : nat) :
  stride (g0 :: gs) (S i) = (Z.to_nat g0 * stride gs i)%nat.
Proof. reflexivity. Qed.

Lemma digits_cons (g0 : Z) (gs : list Z) (k : nat) :
  digits (g0 :: gs) k = Z.of_nat (k mod Z.to_nat g0) :: digits gs (k / Z.to_nat g0).
Proof.
  unfold digits. cbn [imap]. f_equal.
  - unfold coordinate. change (stride (g0 :: gs) 0) with 1%nat.
    by rewrite Nat.div_1_r.
  - apply imap_ext. intros i g Hg. cbn [compose]. unfold coordinate.
    by rewrite stride_cons Nat.Div0.div_div.
Qed.

(** Two rows below the number of combinations with the same grid
    coordinates are the same row. *)
Lemma digits_inj (grid : list Z) : forall k k',
  (k < product (sizes grid))%nat -> (k' < product (sizes grid))%nat ->
  digits grid k = digits grid k' -> k = k'.
Proof.
  induction grid as [|g0 gs IH]; intros k k' Hk Hk' Heq.
  - cbn in Hk, Hk'. lia.
  - rewrite !digits_cons in Heq. injection Heq as Hmod Hrest.
    apply Nat2Z.inj in Hmod.
    change (product (sizes (g0 :: gs))) with (Z.to_nat g0 * product (sizes gs))%nat in *.
    assert (0 < Z.to_nat g0)%nat as Hpos by (destruct (Z.to_nat g0); lia).
    assert (k / Z.to_nat g0 = k' / Z.to_nat g0)%nat as Hdiv.
    { apply IH; [by apply Nat.Div0.div_lt_upper_bound..|done]. }
    rewrite (Nat.div_mod_eq k (Z.to_nat g0)) (Nat.div_mod_eq k' (Z.to_nat g0)).
    by rewrite Hmod Hdiv.
Qed.

Lemma get_permuted_indices_row_length grid :
  Forall (fun g => 0 <= g) grid ->
  exists I,
    get_permuted_indices (Z.of_nat (length grid)) (GridList grid) = Ok I /\
    Forall (fun row => length row = length grid) (rows I).
Proof.
  intros Hg0. unfold get_permuted_indices. rewrite count_nonneg. cbn.
  set (st0 := (Array2 1 (replicate (length grid) [0]), 1%nat)).
  assert (well_shaped (length grid) 1 st0) as Hst0.
  { unfold well_shaped, st0, nrows. cbn. rewrite length_replicate.
    repeat split; try done. apply Forall_replicate. done. }
  rewrite (indices_loop_place _ _ _ _ (index_items_seq _ Hg0) 1 st0 Hst0). cbn.
  destruct (foldl_place_spec (fun z => z) (placed_indices grid) st0 (length grid) 1 Hst0)
    as [(Hn & Hc & _ & Hrows) _].
  { rewrite fst_placed_indices. apply NoDup_seq. }
  { apply Forall_forall. intros [P v] Hin. cbn.
    assert (P ∈ (placed_indices grid).*1) as HP.
    { apply list_elem_of_fmap. by exists (P, v). }
    rewrite fst_placed_indices in HP. apply elem_of_seq in HP. lia. }
  eexists. split; [done|]. rewrite -Hn. apply transpose_row_length. by rewrite Hc.
Qed.

(** The index matrix in closed form: one row per combination, row [k]
    holding the grid coordinates of [k], which are the digits of [k] in the
    mixed radix of the grid sizes with the first parameter least significant.
    Hence no two rows are equal, and every coordinate lies below its grid
    size: each grid cell occurs exactly once. *)
Theorem get_permuted_indices_enumerates grid :
  Forall (fun g => 0 <= g) grid ->
  exists I,
    get_permuted_indices (Z.of_nat (length grid)) (GridList grid) = Ok I /\
    ncols I = length grid /\
    rows I = digits grid <$> seq 0 (product (sizes grid)) /\
    NoDup (rows I) /\
    Forall (fun row => Forall2 (fun c g => 0 <= c < g) row grid) (rows I).
Proof.
  intros Hg0.
  destruct (get_permuted_indices_spec grid Hg0) as (I & HI & Hnrows & Hncols & Hcells).
  destruct (get_permuted_indices_row_length grid Hg0) as (I' & HI' & Hlen).
  assert (I' = I) as -> by congruence.
  assert (rows I = digits grid <$> seq 0 (product (sizes grid))) as Hrows.
  { apply list_eq. intros k. rewrite list_lookup_fmap.
    destruct (decide (k < product (sizes grid))%nat) as [Hk|Hk].
    - rewrite lookup_seq_lt; [|done]. cbn.
      destruct (lookup_lt_is_Some_2 (rows I) k) as [row Hrow].
      { unfold nrows in Hnrows. lia. }
      rewrite Hrow. f_equal. apply list_eq. intros i.
      unfold digits. rewrite list_lookup_imap.
      destruct (grid !! i) as [g|] eqn:Hg; cbn.
      + pose proof (Hcells k Hk i g Hg) as Hcell. unfold at2 in Hcell.
        by rewrite Hrow in Hcell.
      + apply lookup_ge_None. rewrite (proj1 (Forall_forall _ _) Hlen row).
        * by apply lookup_ge_None.
        * by eapply list_elem_of_lookup_2.
    - rewrite lookup_seq_ge; [|lia]. cbn. apply lookup_ge_None.
      unfold nrows in Hnrows. lia. }
  exists I. split; [done|]. split; [done|]. split; [done|]. rewrite Hrows. split.
  - apply NoDup_fmap_2_strong; [|apply NoDup_seq].
    intros k k' Hk%elem_of_seq Hk'%elem_of_seq. apply digits_inj; lia.
  - apply Forall_fmap, Forall_forall. intros k Hk%elem_of_seq. cbn.
    unfold digits. apply Forall2_same_length_lookup_2; [by rewrite length_imap|].
    intros i c g Hc Hg. rewrite list_lookup_imap Hg in Hc. injection Hc as <-.
    assert (k < product (sizes grid))%nat as Hlt by lia.
    pose proof (coordinate_lt grid i g k Hg Hlt).
    pose proof (Forall_lookup_1 _ _ _ _ Hg0 Hg) as Hgpos. cbn in Hgpos. lia.
Qed.

Lemma get_permuted_indices_enumerates_witness :
  exists I,
    get_permuted_indices 2 (GridList [3; 2]) = Ok I /\ NoDup (rows I).
Proof.
  destruct (get_permuted_indices_enumerates [3; 2]) as (I & HI & _ & _ & Hnd & _).
  - repeat constructor; lia.
  - exists I. split; [exact HI|exact Hnd].
Defined.

Lemma column_of_defaults (np_dtype : Qc -> Qc) (defaults : list Qc) :
  column (Array2 1 ((fun d => [np_dtype d]) <$> defaults)) 0 = np_dtype <$> defaults.
Proof.
  unfold column. cbn. induction defaults as [|d defaults IH]; [done|].
  cbn. by rewrite IH.
Qed.

(** Without a varying parameter the matrix is the single row of the
    defaults, converted to the element type; of the lower bounds only their
    number is used, the upper bounds and the grid sizes are not read. *)
Theorem no_varying_parameter defaults lo hi grid np_dtype :
  length defaults = length lo ->
  permutate_parameters [] defaults lo hi grid np_dtype
  = Ok (Array2 (length defaults) [np_dtype <$> defaults]).
Proof.
  intros Hd. unfold permutate_parameters. rewrite decide_True; [|done].
  cbn [enumerate length seq zip zip_with for_each mbind result_bind fst].
  unfold transpose, nrows. cbn [rows ncols seq fmap list_fmap].
  by rewrite length_fmap column_of_defaults.
Qed.

Lemma no_varying_parameter_witness :
  permutate_parameters [] [q 1; q 2] [q 0; q 0] [] (GridNumber 7) (fun x => x)
  = Ok (Array2 2 [[q 1; q 2]]).
Proof.
  apply (no_varying_parameter [q 1; q 2] [q 0; q 0] [] (GridNumber 7) (fun x => x)).
  reflexivity.
Defined.

Lemma product_zero (l : list nat) : 0%nat ∈ l -> product l = 0%nat.
Proof.
  induction l as [|x l IH]; intros Hin; [by apply elem_of_nil in Hin|].
  change (product (x :: l)) with (x * product l)%nat.
  apply elem_of_cons in Hin as [<-|Hin]; [done|]. rewrite IH; [lia|done].
Qed.

(** A grid size of zero on a valid input gives a matrix without rows, and
    an index matrix without rows. *)
Theorem zero_grid_size_no_rows var defaults lo hi grid np_dtype :
  valid_grid var defaults lo hi grid ->
  0 ∈ grid ->
  exists M I,
    permutate_parameters var defaults lo hi (GridList grid) np_dtype = Ok M /\
    rows M = [] /\ ncols M = length lo /\
    get_permuted_indices (Z.of_nat (length grid)) (GridList grid) = Ok I /\
    rows I = [] /\ ncols I = length grid.
Proof.
  intros Hvalid Hzero. pose proof Hvalid as (_ & _ & _ & _ & _ & Hg0).
  assert (product (sizes grid) = 0%nat) as Hprod.
  { apply product_zero. unfold sizes. apply list_elem_of_fmap. by exists 0. }
  destruct (permutate_parameters_spec _ _ _ _ _ np_dtype Hvalid)
    as (M & HM & Hrows & Hcols & _).
  destruct (get_permuted_indices_spec grid Hg0) as (I & HI & HIrows & HIcols & _).
  exists M, I. unfold nrows in *. rewrite Hprod in Hrows, HIrows.
  repeat split; try done; by apply nil_length_inv.
Qed.

Lemma zero_grid_size_no_rows_witness :
  exists M,
    permutate_parameters [0] [q 5] [q 0] [q 1] (GridList [0]) (fun x => x) = Ok M /\
    rows M = [].
Proof.
  destruct (zero_grid_size_no_rows [0] [q 5] [q 0] [q 1] [0] (fun x => x))
    as (M & I & HM & Hrows & _).
  - unfold valid_grid. repeat split; try reflexivity; compute_done.
  - compute_done.
  - exists M. split; [exact HM|exact Hrows].
Defined.

End GridExtras.

(** ** More about the noise routines *)

Module NoiseExtras.
Import Np Protocols Noise NoiseClaims NoiseSpec.

#[local] Open Scope R_scope.

(** A [mapM] whose function returns on the elements satisfying [P] and
    raises [e] on the others. *)
Lemma mapM_result {A B} (f : A -> result exn B) (g : A -> B) (e : exn)
    (P : A -> Prop) `{!forall x, Decision (P x)} :
  (forall x, P x -> f x = Ok (g x)) ->
  (forall x, ~ P x -> f x = Raise e) ->
  forall l, mapM f l = if decide (Forall P l) then Ok (g <$> l) else Raise e.
Proof.
  intros Hok Hraise. induction l as [|x l IH].
  - destruct (decide (Forall P [])) as [_|Hn]; [done|]. by destruct Hn.
  - cbn [mapM]. destruct (decide (P x)) as [Hx|Hx].
    + rewrite (Hok x Hx). cbn. rewrite IH.
      destruct (decide (Forall P l)) as [Hl|Hl],
               (decide (Forall P (x :: l))) as [Hxl|Hxl]; cbn; try done.
      * destruct Hxl. by constructor.
      * by apply Forall_cons in Hxl as [_ ?].
    + rewrite (Hraise x Hx). cbn.
      destruct (decide (Forall P (x :: l))) as [Hxl|Hxl]; [|done].
      by apply Forall_cons in Hxl as [? _].
Qed.

Lemma take_columns_result (indices : list nat) (row : list R) :
  take_columns indices row
  = if decide (in_range indices row)
    then Ok ((fun i => nth i row 0) <$> indices) else Raise IndexError.
Proof.
  unfold take_columns, in_range.
  apply (mapM_result _ (fun i => nth i row 0) IndexError
           (fun i => (i < length row)%nat)).
  - intros i Hi. destruct (lookup_lt_is_Some_2 row i Hi) as [x Hx].
    rewrite Hx. cbn. f_equal. symmetry. by apply nth_lookup_Some.
  - intros i Hi. rewrite (proj2 (lookup_ge_None row i)); [done|lia].
Qed.

(** [get_unweighted_volumes] keeps, for every problem, the volumes at the
    unweighted rows of the protocol, in the order of the protocol, and
    returns the protocol of those rows; it raises [IndexError] exactly when a
    problem has no volume at one of these rows. *)
Theorem get_unweighted_volumes_selects (signals : list (list R)) (protocol : Protocol) :
  get_unweighted_volumes signals protocol
  = if decide (Forall (in_range (get_unweighted_indices protocol)) signals)
    then Ok ((fun row => (fun i => nth i row 0) <$> get_unweighted_indices protocol)
               <$> signals,
             get_new_protocol_with_indices protocol (get_unweighted_indices protocol))
    else Raise IndexError.
Proof.
  unfold get_unweighted_volumes.
  rewrite (mapM_result _
             (fun row => (fun i => nth i row 0) <$> get_unweighted_indices protocol)
             IndexError (in_range (get_unweighted_indices protocol))).
  - by case_decide.
  - intros row Hrow. rewrite take_columns_result. by case_decide.
  - intros row Hrow. rewrite take_columns_result. by case_decide.
Qed.

Lemma subtract_rows (signals : list (list R)) (s0 : list R) (n : nat) :
  length s0 = length signals ->
  Forall (fun row => length row = n) signals ->
  exists baseline,
    subtract signals s0 = Ok baseline /\
    length baseline = length signals /\ Forall (fun row => length row = n) baseline.
Proof.
  intros Hlen Hrows. unfold subtract. rewrite Hlen Nat.eqb_refl.
  eexists. split; [done|]. split.
  - rewrite length_zip_with. lia.
  - apply Forall_forall. intros r (j & Hj)%list_elem_of_lookup_1.
    apply lookup_zip_with_Some in Hj as (row & e & -> & Hrow & _).
    rewrite length_fmap. by apply (Forall_lookup_1 _ _ _ _ Hrows Hrow).
Qed.

(** The two cases in which the number of estimates differs from the
    number of problems and the shapes still go together. *)
Example subtract_broadcasts :
  subtract [[1; 3]; [2; 2]] [1] = Ok [[1 - 1; 3 - 1]; [2 - 1; 2 - 1]] /\
  subtract [[1; 3]] [1; 2] = Ok [[1 - 1; 3 - 1]; [1 - 2; 3 - 2]] /\
  subtract [[1; 3]; [2; 2]; [0; 0]] [1; 2] = Raise ValueError.
Proof. repeat split. Qed.

(** When the optimizer returns one estimate per problem and there are as
    many problems as unweighted volumes, the estimate of the code is the
    second-moment estimate that averages the squared residuals of a problem
    over its volumes: the two divide by the same number. *)
Theorem estimate_noise_std_square_batch (load_protocol : string -> Protocol)
    (minimize_s0 : list (list R) -> Protocol -> list R)
    (signals : list (list R)) (protocol : protocol_arg) :
  (forall unweighted_signals unweighted_protocol,
     length (minimize_s0 unweighted_signals unweighted_protocol)
     = length unweighted_signals) ->
  length signals
  = length (get_unweighted_indices
              match protocol with
              | ProtocolFile file_name => load_protocol file_name
              | ProtocolObject protocol => protocol
              end) ->
  estimate_noise_std load_protocol minimize_s0 signals protocol
  = estimate_noise_std_spec load_protocol minimize_s0 signals protocol.
Proof.
  intros Hone Hsquare. unfold estimate_noise_std, estimate_noise_std_spec.
  set (P := match protocol with ProtocolFile _ => _ | ProtocolObject _ => _ end) in *.
  clearbody P. clear protocol. rename P into protocol.
  unfold get_unweighted_volumes.
  rewrite (mapM_result _
             (fun row => (fun i => nth i row 0) <$> get_unweighted_indices protocol)
             IndexError (in_range (get_unweighted_indices protocol)));
    [|intros row Hrow; rewrite take_columns_result; by case_decide..].
  case_decide as Hrange; [|done]. cbn.
  set (S' := (fun row => _) <$> signals).
  assert (Forall (fun row => length row = length (get_unweighted_indices protocol)) S')
    as Hrows.
  { apply Forall_fmap, Forall_forall. intros row _. cbn. by rewrite length_fmap. }
  destruct (subtract_rows S' (minimize_s0 S' (get_new_protocol_with_indices protocol
                                                (get_unweighted_indices protocol)))
              _ (Hone _ _) Hrows) as (baseline & -> & Hlen & Hbase).
  cbn. do 2 f_equal. rewrite -!list_fmap_compose. apply list_fmap_ext.
  intros j row Hrow. cbn. unfold np_mean. rewrite length_fmap.
  rewrite (Forall_lookup_1 _ _ _ _ Hbase Hrow) Hlen.
  unfold S'. by rewrite length_fmap Hsquare.
Qed.

Lemma estimate_noise_std_square_batch_witness :
  estimate_noise_std (fun _ => {| column_names := []; get_unweighted_indices := [] |})
    (fun unweighted_signals _ => (fun _ => 2) <$> unweighted_signals)
    [[1; 3]; [2; 2]] both_unweighted
  = estimate_noise_std_spec
      (fun _ => {| column_names := []; get_unweighted_indices := [] |})
      (fun unweighted_signals _ => (fun _ => 2) <$> unweighted_signals)
      [[1; 3]; [2; 2]] both_unweighted.
Proof.
  apply (estimate_noise_std_square_batch
           (fun _ => {| column_names := []; get_unweighted_indices := [] |})
           (fun unweighted_signals _ => (fun _ => 2) <$> unweighted_signals)
           [[1; 3]; [2; 2]] both_unweighted).
  - intros unweighted_signals _. apply length_fmap.
  - reflexivity.
Defined.

(** What [make_rician_distributed] returns, element by element. *)
Lemma make_rician_distributed_elements (astype : R -> R) (x_draws y_draws : nat -> R)
    (signals : list R) (noise_level : R) :
  make_rician_distributed astype x_draws y_draws signals noise_level
  = imap (fun i s => astype (Rabs (noise_level * x_draws i + s))) signals.
Proof.
  unfold make_rician_distributed, normal.
  rewrite sqrt_out_same_shape;
    [|rewrite !length_fmap length_zip_with !length_fmap !length_seq; lia].
  apply list_eq. intros i.
  rewrite !list_lookup_fmap list_lookup_imap lookup_zip_with !list_lookup_fmap.
  destruct (signals !! i) as [s|] eqn:Hs.
  - rewrite lookup_seq_lt; [|by eapply lookup_lt_Some]. cbn.
    by rewrite sqrt_pow2_abs.
  - rewrite lookup_seq_ge; [|by apply lookup_ge_None]. done.
Qed.

(** With noise level zero the magnitude of the signals comes back, whatever
    the draws: a signal that is not negative is returned as it is (converted
    to its own element type), a negative one with its sign changed.  The
    result has the shape of the signals at every noise level. *)
Theorem make_rician_distributed_without_noise (astype : R -> R)
    (x_draws y_draws : nat -> R) (signals : list R) :
  make_rician_distributed astype x_draws y_draws signals 0
  = (fun s => astype (Rabs s)) <$> signals
  /\ (Forall (fun s => 0 <= s) signals ->
      make_rician_distributed astype x_draws y_draws signals 0 = astype <$> signals)
  /\ forall noise_level,
       length (make_rician_distributed astype x_draws y_draws signals noise_level)
       = length signals.
Proof.
  assert (make_rician_distributed astype x_draws y_draws signals 0
          = (fun s => astype (Rabs s)) <$> signals) as Hzero.
  { rewrite make_rician_distributed_elements. apply list_eq. intros i.
    rewrite list_lookup_imap list_lookup_fmap.
    destruct (signals !! i) as [s|]; [|done]. cbn. do 3 f_equal. lra. }
  split; [done|]. split.
  - intros Hpos. rewrite Hzero. apply list_fmap_ext. intros i s Hs.
    rewrite Rabs_right; [done|]. apply Rle_ge. by apply (Forall_lookup_1 _ _ _ _ Hpos Hs).
  - intros noise_level. by rewrite make_rician_distributed_elements length_imap.
Qed.

Lemma make_rician_distributed_without_noise_witness :
  make_rician_distributed (fun x => x) (fun _ => 1) (fun _ => 1) [1; 3] 0 = [1; 3].
Proof.
  apply (make_rician_distributed_without_noise (fun x => x) (fun _ => 1) (fun _ => 1)
           [1; 3]).
  repeat constructor; lra.
Defined.

End NoiseExtras.

(** ** More about the sampler *)

Module SamplingExtras.
Import Protocols Sampling SamplingFacts SamplingClaims Scenario SamplingSpec.

#[local] Open Scope string_scope.

(** The construction of [ModelSampling] leaves the file system alone,
    whatever it is given and however it ends: all it does is look the model
    up, set its precision flag and build the default sampler. *)
Theorem construction_leaves_files (C : Collaborators) model problem_data output_folder
    sampler recalculate cl_device_ind double_precision initialize initialize_using
    store_samples tmp_results_dir (w : world) :
  exists r events,
    ModelSampling.__init__ C model problem_data output_folder sampler recalculate
      cl_device_ind double_precision initialize initialize_using store_samples
      tmp_results_dir w
    = (r, World (fs w) (trace w ++ events)) /\
    Forall construction_event events.
Proof.
  unfold ModelSampling.__init__.
  destruct model as [model_name|m].
  - unfold mbind at 1, io_bind at 1. unfold mbind at 1, io_bind at 1.
    unfold emit at 1, lift at 1.
    destruct (get_model C model_name) as [m|]; cbn [of_option].
    + destruct (kind m).
      * destruct sampler as [s|]; io_step;
          destruct (is_protocol_sufficient m (protocol problem_data)); cbn;
          rewrite -?app_assoc; do 2 eexists; (split; [reflexivity|]);
          repeat constructor.
      * io_step. do 2 eexists. split; [reflexivity|]. repeat constructor.
    + do 2 eexists. split; [reflexivity|]. repeat constructor.
  - unfold mbind at 1, io_bind at 1. cbn [mret io_ret].
    destruct (kind m).
    + destruct sampler as [s|]; io_step;
        destruct (is_protocol_sufficient m (protocol problem_data)); cbn;
        rewrite -?app_assoc; do 2 eexists; (split; [reflexivity|]);
        repeat constructor.
    + io_step. exists (Raise (ValueError ModelSampling.cascade_message)), [].
      by rewrite app_nil_r; destruct w.
Qed.

(** A [ModelSampling] that was constructed holds a model that is no
    cascade and a protocol sufficient for it; the precision setter of the
    model has been called with the flag as given, and a single device index
    has become a list.  The constructor of [SampleSingleModel] therefore
    accepts its fields, for every strategy: on this way the second protocol
    check never fires. *)
Theorem constructed_is_accepted (C : Collaborators) model problem_data output_folder
    sampler recalculate cl_device_ind double_precision initialize initialize_using
    store_samples tmp_results_dir (w w' : world) (self : ModelSampling.self)
    (strategy : ProcessingStrategy) :
  ModelSampling.__init__ C model problem_data output_folder sampler recalculate
    cl_device_ind double_precision initialize initialize_using store_samples
    tmp_results_dir w = (Ok self, w') ->
  kind (ModelSampling._model self) = Composite /\
  SetDoublePrecision (name (ModelSampling._model self)) double_precision ∈ trace w' /\
  ModelSampling._cl_device_indices self
  = match cl_device_ind with
    | NoDeviceIndex => None
    | DeviceIndex i => Some [i]
    | DeviceIndices l => Some l
    end /\
  exists single,
    SampleSingleModel.__init__ (ModelSampling._model self)
      (ModelSampling._problem_data self) (ModelSampling._output_folder self)
      (ModelSampling._sampler self) strategy (ModelSampling._recalculate self)
      (ModelSampling._initialize self) (ModelSampling._initialize_using self)
      (ModelSampling._store_samples self) = Ok single /\
    SampleSingleModel._output_path single
    = (output_folder ++ [name (ModelSampling._model self); "samples"])%list.
Proof.
  unfold ModelSampling.__init__. intros Hinit.
  assert (exists m events,
            kind m = Composite /\
            is_protocol_sufficient m (protocol problem_data) = true /\
            trace w' = (trace w ++ events)%list /\
            SetDoublePrecision (name m) double_precision ∈ events /\
            ModelSampling._model self = set_double_precision m double_precision /\
            ModelSampling._problem_data self = problem_data /\
            ModelSampling._output_folder self = output_folder /\
            ModelSampling._cl_device_indices self
            = match cl_device_ind with
              | NoDeviceIndex => None
              | DeviceIndex i => Some [i]
              | DeviceIndices l => Some l
              end)
    as (m & events & Hkind & Hsuff & Htrace & Hset & Hmodel & Hpd & Hout & Hdev).
  { destruct model as [model_name|m]; revert Hinit; io_step.
    - destruct (get_model C model_name) as [m|]; cbn; [|done].
      destruct (kind m) eqn:Hkind; [|done]. io_step.
      destruct sampler as [s|]; io_step;
        destruct (is_protocol_sufficient m (protocol problem_data)) eqn:Hs; cbn;
        try done; intros [= <- <-]; exists m; cbn [trace]; rewrite -?app_assoc;
        eexists; (do 2 (split; [done|])); (split; [reflexivity|]);
        (split; [|done]); cbn; apply elem_of_cons; right; by left.
    - destruct (kind m) eqn:Hkind; [|done]. io_step.
      destruct sampler as [s|]; io_step;
        destruct (is_protocol_sufficient m (protocol problem_data)) eqn:Hs; cbn;
        try done; intros [= <- <-]; exists m; cbn [trace]; rewrite -?app_assoc;
        eexists; (do 2 (split; [done|])); (split; [reflexivity|]);
        (split; [|done]); cbn; by left. }
  rewrite Hmodel Hpd Hout Htrace. unfold set_double_precision.
  split; [done|]. split; [apply elem_of_app; by right|]. split; [done|].
  unfold SampleSingleModel.__init__. rewrite Hsuff. cbn.
  eexists. split; [reflexivity|done].
Qed.

Lemma constructed_is_accepted_witness :
  exists self w' single,
    ModelSampling.__init__ collaborators (ModelSampling.ModelName "Tensor") with_b ["out"]
      None false (DeviceIndex 0) true false UseNone true TmpTrue empty_world
    = (Ok self, w') /\
    SampleSingleModel.__init__ (ModelSampling._model self)
      (ModelSampling._problem_data self) (ModelSampling._output_folder self)
      (ModelSampling._sampler self) one_map_strategy (ModelSampling._recalculate self)
      (ModelSampling._initialize self) (ModelSampling._initialize_using self)
      (ModelSampling._store_samples self) = Ok single.
Proof.
  destruct (ModelSampling.__init__ collaborators (ModelSampling.ModelName "Tensor") with_b
              ["out"] None false (DeviceIndex 0) true false UseNone true TmpTrue
              empty_world) as [[self|e] w'] eqn:Hinit;
    [|vm_compute in Hinit; discriminate].
  destruct (constructed_is_accepted _ _ _ _ _ _ _ _ _ _ _ _ _ _ _ one_map_strategy Hinit)
    as (_ & _ & _ & single & Hsingle & _).
  exists self, w', single. split; [reflexivity|exact Hsingle].
Defined.

Section run.
Context (C : Collaborators) (self : SampleSingleModel.self).

#[local] Abbreviation p := (SampleSingleModel._output_path self).
#[local] Abbreviation model := (SampleSingleModel.bound_model self).
#[local] Abbreviation mask_of := (mask (SampleSingleModel._problem_data self)).

(** A regular file where the output directory should be stops [run] before
    anything is computed.  With [recalculate] the removal of the tree fails;
    without it, and without a complete output, the directory cannot be made.
    The file stays as it is. *)
Theorem output_path_is_a_file (w : world) (data : list Qc) :
  fs w !! p = Some (File data) ->
  (SampleSingleModel.recalculate self = true ->
     SampleSingleModel.run C self w
     = (Raise (NotADirectoryError p),
        World (fs w) (trace (SampleSingleModel.entered self w) ++ [Rmtree p]))) /\
  (SampleSingleModel.recalculate self = false ->
   model_output_exists C (fs w) model (p ++ ["volume_maps"]) = false ->
     SampleSingleModel.run C self w
     = (Raise (FileExistsError p),
        World (fs w) (trace (SampleSingleModel.entered self w) ++ [Makedirs p]))).
Proof.
  intros Hfile. split.
  - intros Hrec. rewrite run_enter Hrec.
    unfold exists_, SampleSingleModel.entered. cbn [fs]. rewrite Hfile.
    io_step. unfold rmtree. by rewrite Hfile.
  - intros Hrec Hmarker. rewrite run_enter Hrec. cbn [fs SampleSingleModel.entered].
    rewrite Hmarker. unfold SampleSingleModel.process, SampleSingleModel.ensure_output_path.
    io_step. unfold isdir, makedirs, exists_. by rewrite Hfile.
Qed.

Lemma confined_refl (q : path) (fs0 : filesystem) : confined q fs0 fs0.
Proof. intros a _. by left. Qed.

Lemma confined_trans (q : path) (fs0 fs1 fs2 : filesystem) :
  confined q fs0 fs1 -> confined q fs1 fs2 -> confined q fs0 fs2.
Proof.
  intros H1 H2 a Ha.
  destruct (H1 a Ha) as [Hsame|(Hpre & Hnone & Hdir)];
    destruct (H2 a Ha) as [Hsame'|(Hpre' & Hnone' & Hdir')].
  - left. congruence.
  - right. rewrite -Hsame. done.
  - right. rewrite Hsame'. done.
  - congruence.
Qed.

Lemma rmtree_confined (q : path) (fs0 fs1 : filesystem) :
  rmtree fs0 q = Ok fs1 -> confined q fs0 fs1.
Proof. intros Hrm a Ha. left. by apply (rmtree_other _ _ _ _ Hrm). Qed.

Lemma elem_of_ancestors (q a : path) : a ∈ ancestors q -> a `prefix_of` q.
Proof.
  unfold ancestors. intros (n & -> & _)%list_elem_of_fmap. apply prefix_take.
Qed.

Lemma makedirs_confined (q : path) (fs0 fs1 : filesystem) :
  makedirs fs0 q = Ok fs1 -> confined q fs0 fs1.
Proof.
  unfold makedirs. destruct (exists_ fs0 q); [done|].
  destruct (list_find _ _) as [[? ?]|]; [done|]. intros [= <-].
  assert (forall l fs2,
            (forall a, a ∈ l -> a `prefix_of` q) ->
            forall a,
              foldl (fun fs a => if exists_ fs a then fs else <[a := Dir]> fs) fs2 l !! a
              = fs2 !! a \/
              (a `prefix_of` q /\ fs2 !! a = None /\
               foldl (fun fs a => if exists_ fs a then fs else <[a := Dir]> fs) fs2 l !! a
               = Some Dir)) as Hfold.
  { induction l as [|b l IH]; intros fs2 Hl a; [by left|]. cbn [foldl].
    assert (forall a, a ∈ l -> a `prefix_of` q) as Hl' by (intros c Hc; apply Hl; by right).
    destruct (IH (if exists_ fs2 b then fs2 else <[b := Dir]> fs2) Hl' a)
      as [Hsame|(Hpre & Hnone & Hdir)];
      unfold exists_ in *; destruct (fs2 !! b) eqn:Hb.
    - by left.
    - rewrite Hsame. destruct (decide (a = b)) as [->|Hne].
      + right. rewrite lookup_insert_eq. split; [apply Hl; by left|done].
      + left. by rewrite lookup_insert_ne.
    - right. done.
    - right. split; [done|]. split; [|done].
      destruct (decide (a = b)) as [->|Hne]; [done|]. by rewrite lookup_insert_ne in Hnone. }
  intros a _. apply Hfold, elem_of_ancestors.
Qed.

Lemma process_confined (m : Model) (w : world) :
  exists w2,
    confined p (fs w) (fs w2) /\
    (SampleSingleModel.process C self m w = SampleSingleModel.sample C self m w2 \/
     exists e, SampleSingleModel.process C self m w = (Raise e, w2)).
Proof.
  unfold SampleSingleModel.process.
  destruct (isdir (fs w) p) eqn:Hdir.
  - exists w. split; [apply confined_refl|]. left.
    by rewrite (io_bind_ok _ _ _ _ _ (ensure_output_path_there _ _ Hdir)).
  - destruct (makedirs (fs w) p) as [fs1|e] eqn:Hmk.
    + exists (World fs1 (trace w ++ [Makedirs p])). split; [by apply makedirs_confined|].
      left. by rewrite (io_bind_ok _ _ _ _ _ (ensure_output_path_made _ _ _ Hdir Hmk)).
    + exists (World (fs w) (trace w ++ [Makedirs p])). split; [apply confined_refl|].
      right. exists e. unfold SampleSingleModel.ensure_output_path.
      io_step. rewrite Hdir. cbn. by rewrite Hmk.
Qed.

(** Whatever [run] does before it samples stays within the output path:
    outside the tree at [samples] every path is as it was, but for missing
    directories on the way to it, which may have been made.
    From the world so reached [run] samples, or it has failed, or it returns
    the persisted samples, and then it has left the file system as it
    was. *)
Theorem run_confined (w : world) :
  exists w2,
    confined p (fs w) (fs w2) /\
    (SampleSingleModel.run C self w = SampleSingleModel.sample C self model w2 \/
     (exists e, SampleSingleModel.run C self w = (Raise e, w2)) \/
     (SampleSingleModel.run C self w = (Ok (load_samples C (fs w) p), w2) /\
      fs w2 = fs w)).
Proof.
  rewrite run_enter. destruct (SampleSingleModel.recalculate self).
  - destruct (exists_ (fs w) p) eqn:Hex.
    + destruct (rmtree (fs w) p) as [fs1|e] eqn:Hrm.
      * destruct (process_confined model
                    (World fs1 (trace (SampleSingleModel.entered self w) ++ [Rmtree p])))
          as (w2 & Hconf & Hrun).
        exists w2. split.
        { apply (confined_trans _ _ fs1); [by apply rmtree_confined|done]. }
        assert (forall k : unit -> io Samples,
                  ((_ ← emit (Rmtree p); fs' ← lift (Ok fs1); put_fs fs') ≫= k)
                    (SampleSingleModel.entered self w)
                  = k tt (World fs1 (trace (SampleSingleModel.entered self w) ++ [Rmtree p])))
          as -> by done.
        destruct Hrun as [->|[e ->]]; [by left|right; left; by exists e].
      * exists (World (fs w) (trace (SampleSingleModel.entered self w) ++ [Rmtree p])).
        split; [apply confined_refl|]. right. left. by exists e.
    + destruct (process_confined model (SampleSingleModel.entered self w))
        as (w2 & Hconf & Hrun).
      exists w2. split; [done|].
      erewrite io_bind_ok; [|reflexivity].
      destruct Hrun as [->|[e ->]]; [by left|right; left; by exists e].
  - destruct (model_output_exists C (fs w) model (p ++ ["volume_maps"])).
    + eexists. split; [|right; right; split; [reflexivity|done]]. apply confined_refl.
    + destruct (process_confined model (SampleSingleModel.entered self w))
        as (w2 & Hconf & Hrun).
      exists w2. split; [done|].
      destruct Hrun as [->|[e ->]]; [by left|right; left; by exists e].
Qed.

Lemma files_of_cons (item : string * dict_value) (items : list (string * dict_value)) :
  files_of (item :: items) = (files_of [item] ++ files_of items)%list.
Proof. by destruct item as [key [file|x|v]]. Qed.

Lemma resolve_loads (item : string * dict_value) (w : world) :
  loads C (fs w) item.2 ->
  SampleSingleModel.resolve C self item w
  = (Ok (prod_map (fun key => key) (resolved_value C (fs w) mask_of) item),
     World (fs w) (trace w ++ (NibLoad <$> files_of [item]))).
Proof.
  destruct item as [key [file|x|v]]; unfold SampleSingleModel.resolve, files_of; io_step.
  - intros [data ->]. done.
  - intros _. rewrite app_nil_r. by destruct w.
  - intros _. rewrite app_nil_r. by destruct w.
Qed.

Lemma mapM_resolve_loads (items : list (string * dict_value)) : forall w,
  Forall (fun item => loads C (fs w) item.2) items ->
  mapM (SampleSingleModel.resolve C self) items w
  = (Ok (prod_map (fun key => key) (resolved_value C (fs w) mask_of) <$> items),
     World (fs w) (trace w ++ (NibLoad <$> files_of items))).
Proof.
  induction items as [|item items IH]; intros w Hall.
  - cbn. rewrite app_nil_r. by destruct w.
  - apply Forall_cons in Hall as [Hitem Hall]. cbn [mapM].
    rewrite (io_bind_ok _ _ _ _ _ (resolve_loads item w Hitem)).
    rewrite (io_bind_ok _ _ _ _ _
               (IH (World (fs w) (trace w ++ (NibLoad <$> files_of [item]))) Hall)).
    cbn [fs trace].
    rewrite (files_of_cons item items). by rewrite fmap_app app_assoc.
Qed.

Lemma mapM_resolve_missing (items : list (string * dict_value)) : forall w,
  Exists (fun item => ~ loads C (fs w) item.2) items ->
  exists file w',
    mapM (SampleSingleModel.resolve C self) items w = (Raise (FileNotFoundError file), w') /\
    fs w' = fs w /\ nib_load C (fs w) file = None /\
    exists key, (key, FileName file) ∈ items.
Proof.
  induction items as [|item items IH]; intros w Hex; [by apply Exists_nil in Hex|].
  cbn [mapM]. destruct item as [key value].
  assert (loads C (fs w) value \/
          exists file, value = FileName file /\ nib_load C (fs w) file = None) as [Hload|Hmiss].
  { destruct value as [file|x|v]; cbn; [|by left..].
    destruct (nib_load C (fs w) file) eqn:Hfile; [left; eauto|right; eauto]. }
  - rewrite (io_bind_ok _ _ _ _ _ (resolve_loads (key, value) w Hload)).
    apply Exists_cons in Hex as [Hhead|Htail]; [done|].
    destruct (IH (World (fs w) (trace w ++ (NibLoad <$> files_of [(key, value)]))) Htail)
      as (file & w' & Hrun & Hfs & Hnone & key' & Hin).
    exists file, w'. rewrite (io_bind_raise _ _ _ _ _ Hrun).
    do 3 (split; [done|]). exists key'. by right.
  - destruct Hmiss as (file & -> & Hnone).
    exists file, (World (fs w) (trace w ++ [NibLoad file])).
    unfold SampleSingleModel.resolve. io_step. rewrite Hnone. cbn.
    do 3 (split; [done|]). exists key. by left.
Qed.

(** Start values given as a dict.  When the dict is not empty and every
    file it names loads, the resolver returns, name by name, the scalar as it
    is and the volume, given or loaded, projected through the mask; it loads
    the named files in the order of the items and leaves the file system as
    it was.  When a named file does not load, the resolver fails on such a
    file, and no start values are returned. *)
Theorem dict_initialization (d : gmap string dict_value) (w : world) :
  SampleSingleModel._initialize self = true ->
  SampleSingleModel._initialize_using self = UseDict d ->
  (d <> ∅ -> map_Forall (fun _ value => loads C (fs w) value) d ->
     SampleSingleModel._get_initialization_params C self w
     = (Ok (resolved_value C (fs w) mask_of <$> d),
        World (fs w)
          (trace w ++ LogInfo "Initializing sampler using given maps."
                      :: (NibLoad <$> files_of (map_to_list d))))) /\
  (forall key file,
     d !! key = Some (FileName file) -> nib_load C (fs w) file = None ->
     exists key' file' w',
       d !! key' = Some (FileName file') /\ nib_load C (fs w) file' = None /\
       SampleSingleModel._get_initialization_params C self w
       = (Raise (FileNotFoundError file'), w') /\
       fs w' = fs w).
Proof.
  intros Hinit Husing. unfold SampleSingleModel._get_initialization_params.
  rewrite Hinit Husing.
  set (w0 := World (fs w) (trace w ++ [LogInfo "Initializing sampler using given maps."])).
  assert (emit (LogInfo "Initializing sampler using given maps.") w = (Ok tt, w0))
    as Hlog by done.
  split.
  - intros Hne Hall.
    assert (Forall (fun item => loads C (fs w0) item.2) (map_to_list d)) as Hitems.
    { apply Forall_forall. intros [key value] Hin%elem_of_map_to_list. by apply (Hall key). }
    rewrite (io_bind_ok _ _ _ _ _
               (eq_trans (io_bind_ok _ _ _ _ _ Hlog)
                  (io_bind_ok _ _ _ _ _ (mapM_resolve_loads _ w0 Hitems)))).
    cbn [mret io_ret fs trace w0].
    rewrite (list_to_map_fmap (M := gmap string)) list_to_map_to_list.
    assert (is_falsy (Some (resolved_value C (fs w) mask_of <$> d)) = false) as ->.
    { apply not_true_is_false. by rewrite is_falsy_fmap. }
    cbn. by rewrite -app_assoc.
  - intros key file Hkey Hnone.
    destruct (mapM_resolve_missing (map_to_list d) w0)
      as (file' & w' & Hrun & Hfs & Hnone' & key' & Hin).
    { apply Exists_exists. exists (key, FileName file). split.
      - by apply elem_of_map_to_list.
      - cbn. rewrite Hnone. by intros [? ?]. }
    exists key', file', w'. split; [by apply elem_of_map_to_list|]. split; [done|].
    split; [|done].
    by rewrite (io_bind_raise _ _ _ _ _
                  (eq_trans (io_bind_ok _ _ _ _ _ Hlog) (io_bind_raise _ _ _ _ _ Hrun))).
Qed.

Lemma resolve_history (item : string * dict_value) (fs0 : filesystem) :
  exists r events,
    Forall reading_event events /\
    forall history,
      SampleSingleModel.resolve C self item (World fs0 history)
      = (r, World fs0 (history ++ events)).
Proof.
  destruct item as [key [file|x|v]]; unfold SampleSingleModel.resolve.
  - destruct (nib_load C fs0 file) as [data|] eqn:Hfile;
      eexists _, [NibLoad file]; (split; [by repeat constructor|]);
      intros history; io_step; rewrite Hfile; reflexivity.
  - eexists _, []. split; [done|]. intros history. by rewrite app_nil_r.
  - eexists _, []. split; [done|]. intros history. by rewrite app_nil_r.
Qed.

Lemma mapM_resolve_history (items : list (string * dict_value)) (fs0 : filesystem) :
  exists r events,
    Forall reading_event events /\
    forall history,
      mapM (SampleSingleModel.resolve C self) items (World fs0 history)
      = (r, World fs0 (history ++ events)).
Proof.
  induction items as [|item items IH].
  - eexists _, []. split; [done|]. intros history. by rewrite app_nil_r.
  - destruct (resolve_history item fs0) as ([kv|e] & events & Hev & Hit).
    + destruct IH as ([r|e] & events' & Hev' & Hrest).
      * exists (Ok (kv :: r)), (events ++ events')%list. split; [by apply Forall_app|].
        intros history. cbn [mapM]. rewrite (io_bind_ok _ _ _ _ _ (Hit history)).
        rewrite (io_bind_ok _ _ _ _ _ (Hrest _)). cbn. by rewrite app_assoc.
      * exists (Raise e), (events ++ events')%list. split; [by apply Forall_app|].
        intros history. cbn [mapM]. rewrite (io_bind_ok _ _ _ _ _ (Hit history)).
        rewrite (io_bind_raise _ _ _ _ _ (Hrest _)). by rewrite app_assoc.
    + exists (Raise e), events. split; [done|].
      intros history. cbn [mapM]. by rewrite (io_bind_raise _ _ _ _ _ (Hit history)).
Qed.

(** Resolving the start values only reads, and what it gives is a matter
    of the files alone: on a file system, whatever was done before, it ends
    the same way, with the same maps or the same error, after the same reads
    (log lines, volume maps of a folder, files a dict names), and the file
    system is as it was. *)
Theorem initialization_only_reads (fs0 : filesystem) :
  exists r events,
    Forall reading_event events /\
    forall history,
      SampleSingleModel._get_initialization_params C self (World fs0 history)
      = (r, World fs0 (history ++ events)).
Proof.
  unfold SampleSingleModel._get_initialization_params.
  destruct (SampleSingleModel._initialize self).
  - destruct (SampleSingleModel._initialize_using self) as [|folder|d|].
    + destruct (is_falsy (Some (create_roi_maps C
                  (read_volume_maps C fs0 (SampleSingleModel.default_folder self)) mask_of)))
        eqn:Hfalsy;
        eexists _, _; (split; [|intros history;
          rewrite (io_bind_ok _ _ _ _ _
                     (io_bind_ok _ _ _ _ _ (read_maps_run C self _ (World fs0 history))));
          cbn [mret io_ret fs trace];
          change (SampleSingleModel._output_folder self
                  ++ [name (SampleSingleModel._model self)])%list
            with (SampleSingleModel.default_folder self);
          rewrite Hfalsy; reflexivity]); by repeat constructor.
    + destruct (is_falsy (Some (create_roi_maps C (read_volume_maps C fs0 folder) mask_of)))
        eqn:Hfalsy;
        eexists _, _; (split; [|intros history;
          rewrite (io_bind_ok _ _ _ _ _
                     (io_bind_ok _ _ _ _ _ (read_maps_run C self _ (World fs0 history))));
          cbn [mret io_ret fs trace]; rewrite Hfalsy; reflexivity]); by repeat constructor.
    + destruct (mapM_resolve_history (map_to_list d) fs0) as ([r|e] & events & Hev & Hrun).
      * destruct (is_falsy (Some (list_to_map r : gmap string init_value))) eqn:Hfalsy;
          eexists _, (LogInfo "Initializing sampler using given maps." :: events);
          (split; [by constructor|]); intros history;
          rewrite (io_bind_ok _ _ _ _ _
                     (eq_trans (io_bind_ok _ _ _ _ _ (emit_run _ (World fs0 history)))
                        (io_bind_ok _ _ _ _ _ (Hrun _))));
          cbn [mret io_ret fs trace]; rewrite Hfalsy; cbn; rewrite -app_assoc; reflexivity.
      * eexists _, (LogInfo "Initializing sampler using given maps." :: events).
        split; [by constructor|]. intros history.
        rewrite (io_bind_raise _ _ _ _ _
                   (eq_trans (io_bind_ok _ _ _ _ _ (emit_run _ (World fs0 history)))
                      (io_bind_raise _ _ _ _ _ (Hrun _)))).
        cbn. by rewrite -app_assoc.
    + eexists _, []. split; [done|]. intros history. cbn. by rewrite app_nil_r.
  - eexists _, []. split; [done|]. intros history. cbn. by rewrite app_nil_r.
Qed.

(** [sample] from start to end.  It logs, resolves the start values, which
    changes no file, and if that fails it fails the same way: no parameter
    is set and the strategy is not run.  Otherwise it sets the start values
    and runs the strategy once, on the file system it was entered with, with
    the output path and the [recalculate] flag of the object, and returns
    what the strategy returns.  When the strategy fails its exception leaves
    [sample], what it wrote stays, and the closing log line is not
    written. *)
Theorem sample_runs_strategy (m : Model) (w : world) :
  exists r0 events,
    Forall reading_event events /\
    SampleSingleModel._get_initialization_params C self
      (World (fs w) (trace w ++ [LogInfo "Sampling {} model"]))
    = (r0, World (fs w) (trace w ++ LogInfo "Sampling {} model" :: events)) /\
    match r0 with
    | Raise e =>
        SampleSingleModel.sample C self m w
        = (Raise e, World (fs w) (trace w ++ LogInfo "Sampling {} model" :: events))
    | Ok maps =>
        let '(r, fs') :=
          SampleSingleModel._processing_strategy self (set_initial_parameters m maps)
            (SampleSingleModel._problem_data self) p (SampleSingleModel.recalculate self)
            (SampleSingleModel._sampler self) (SampleSingleModel._store_samples self)
            (fs w) in
        SampleSingleModel.sample C self m w
        = (r, World fs'
                (trace w ++ LogInfo "Sampling {} model" :: events
                 ++ [SetInitialParameters (name m) (map_to_list maps).*1;
                     StrategyRun p (SampleSingleModel.recalculate self)]
                 ++ match r with
                    | Ok _ => [LogInfo "Sampled {0} model with runtime {1} (h:m:s)."]
                    | Raise _ => []
                    end))
    end.
Proof.
  set (w0 := World (fs w) (trace w ++ [LogInfo "Sampling {} model"])).
  destruct (initialization_frame C self w0) as (r0 & events & Hparams & Hev).
  exists r0, events. split; [done|].
  assert (SampleSingleModel._get_initialization_params C self w0
          = (r0, World (fs w) (trace w ++ LogInfo "Sampling {} model" :: events))) as Hparams'.
  { rewrite Hparams. cbn. by rewrite -app_assoc. }
  split; [done|]. clear Hparams.
  assert (emit (LogInfo "Sampling {} model") w = (Ok tt, w0)) as Hlog by done.
  unfold SampleSingleModel.sample. rewrite (io_bind_ok _ _ _ _ _ Hlog).
  destruct r0 as [maps|e].
  - rewrite (io_bind_ok _ _ _ _ _ Hparams').
    rewrite (io_bind_ok _ _ _ _ _ (emit_run _ _)).
    rewrite (io_bind_ok _ _ _ _ _ (emit_run _ _)).
    rewrite (io_bind_ok _ _ _ _ _ (get_fs_run _)). cbn [fs trace].
    destruct (SampleSingleModel._processing_strategy self _ _ _ _ _ _ _) as [[samples|e] fs'];
      io_step; repeat rewrite -app_assoc; cbn; by rewrite -?app_assoc.
  - by rewrite (io_bind_raise _ _ _ _ _ Hparams').
Qed.

End run.

Lemma output_path_is_a_file_witness :
  SampleSingleModel.run collaborators (tensor_sampler true false UseNone)
    (World {[ ["out"; "Tensor"; "samples"] := File [] ]} [])
  = (Raise (NotADirectoryError ["out"; "Tensor"; "samples"]),
     World {[ ["out"; "Tensor"; "samples"] := File [] ]}
       [LoggingContext ["out"]; SetProblemData "Tensor";
        Rmtree ["out"; "Tensor"; "samples"]]).
Proof.
  refine (proj1 (output_path_is_a_file collaborators (tensor_sampler true false UseNone)
                   (World {[ ["out"; "Tensor"; "samples"] := File [] ]} []) [] _) _);
    reflexivity.
Defined.

Lemma dict_initialization_witness :
  SampleSingleModel._get_initialization_params collaborators
    (tensor_sampler false true
       (UseDict {[ "Tensor.d" := Number (Np.Qc_of_Z 3) ]})) empty_world
  = (Ok {[ "Tensor.d" := Scalar (Np.Qc_of_Z 3) ]},
     World (fs empty_world) [LogInfo "Initializing sampler using given maps."]).
Proof.
  pose proof (proj1 (dict_initialization collaborators
                       (tensor_sampler false true
                          (UseDict {[ "Tensor.d" := Number (Np.Qc_of_Z 3) ]}))
                       {[ "Tensor.d" := Number (Np.Qc_of_Z 3) ]} empty_world
                       eq_refl eq_refl)) as Hdict.
  rewrite Hdict.
  - reflexivity.
  - apply insert_non_empty.
  - by apply map_Forall_singleton.
Defined.

End SamplingExtras.
